(** * Eventfloww: the event store of [script.js]

    A shallow embedding of the event store implemented by [src/script.js]
    (the global array [events], its mirror under the [localStorage] key
    ['events'], and the handlers that read and write them), together with
    the properties the specification states about it.

    Conventions of the embedding.
    - A JavaScript string is the list of its UTF-16 code units.
    - [votes] holds integer Numbers; they are embedded as [Z]. [++] on
      a Number rounds to a double, which [Number_increment] writes out;
      the decimal rendering of a Number is exact as long as the magnitude
      stays below 2^53.
    - The array [events] is only ever extended with [push] and is never
      reordered (every [sort] runs on a spread copy), so the object that
      [events.find] returns is identified with its position in the array.
    - [localStorage] is a finite map from keys to strings whose [setItem]
      always succeeds.
    - What the handlers write to the document (counters, lists, message
      areas) touches neither [events] nor [localStorage]; the embedding
      keeps of it what a handler shows, as its [Feedback]. The calls into
      the document are taken to return normally, except those [handleVote]
      makes between [event.votes++] and the save: how they end is an input
      of the handler, a [Completion].
    - The clock and the random source are inputs of the handlers that read
      them. *)

From Stdlib Require Import ZArith NArith Ascii String List Sorted Permutation Decimal DecimalN DecimalFacts Lia.
From stdpp Require Import gmap strings list.

Local Open Scope N_scope.

(** ** JavaScript strings *)

Abbreviation jsstring := (list N).

(** String literals of the source are written in UTF-8 in this file; [js]
    turns such a literal into the UTF-16 code units the script sees. *)
Fixpoint utf8_bytes (s : string) : list N :=
  match s with
  | EmptyString => []
  | String a s' => N_of_ascii a :: utf8_bytes s'
  end.

(** The code units of the character that starts with the byte [b],
    and the bytes after it. *)
Definition decode_utf8 (b : N) (r1 : list N) : list N * list N :=
  if b <? 0x80 then ([b], r1)
  else match r1 with
    | [] => ([0xFFFD], [])
    | b1 :: r2 =>
        if b <? 0xE0 then ([(b - 0xC0) * 64 + (b1 - 0x80)], r2)
        else match r2 with
          | [] => ([0xFFFD], [])
          | b2 :: r3 =>
              if b <? 0xF0
              then ([(b - 0xE0) * 4096 + (b1 - 0x80) * 64 + (b2 - 0x80)], r3)
              else match r3 with
                | [] => ([0xFFFD], [])
                | b3 :: r4 =>
                    let cp := (b - 0xF0) * 262144 + (b1 - 0x80) * 4096
                              + (b2 - 0x80) * 64 + (b3 - 0x80) - 0x10000 in
                    ([0xD800 + cp / 1024; 0xDC00 + cp mod 1024], r4)
                end
          end
    end.

Fixpoint utf16_of_utf8 (fuel : nat) (bs : list N) : list N :=
  match fuel with
  | O => []
  | S fuel' =>
      match bs with
      | [] => []
      | b :: r => let (units, rest) := decode_utf8 b r in
                  units ++ utf16_of_utf8 fuel' rest
      end
  end.

Definition js (s : string) : jsstring :=
  let bytes := utf8_bytes s in utf16_of_utf8 (length bytes) bytes.

(** [WhiteSpace] and [LineTerminator] code points: what
    [String.prototype.trim] strips. *)
Definition is_white_space (c : N) : bool :=
  (c =? 0x9) || (c =? 0xA) || (c =? 0xB) || (c =? 0xC) || (c =? 0xD)
  || (c =? 0x20) || (c =? 0xA0) || (c =? 0x1680)
  || ((0x2000 <=? c) && (c <=? 0x200A))
  || (c =? 0x2028) || (c =? 0x2029) || (c =? 0x202F) || (c =? 0x205F)
  || (c =? 0x3000) || (c =? 0xFEFF).

Fixpoint trimStart (s : jsstring) : jsstring :=
  match s with
  | [] => []
  | c :: s' => if is_white_space c then trimStart s' else s
  end.

Definition trimEnd (s : jsstring) : jsstring := rev (trimStart (rev s)).

(** [s.trim()] *)
Definition trim (s : jsstring) : jsstring := trimEnd (trimStart s).

(** A string is truthy when it is not empty. *)
Definition truthy (s : jsstring) : bool :=
  match s with [] => false | _ => true end.

(** Decimal digits of a [Decimal.uint] as code units. *)
Fixpoint uint_units (d : Decimal.uint) : jsstring :=
  match d with
  | Nil => []
  | D0 d => 48 :: uint_units d
  | D1 d => 49 :: uint_units d
  | D2 d => 50 :: uint_units d
  | D3 d => 51 :: uint_units d
  | D4 d => 52 :: uint_units d
  | D5 d => 53 :: uint_units d
  | D6 d => 54 :: uint_units d
  | D7 d => 55 :: uint_units d
  | D8 d => 56 :: uint_units d
  | D9 d => 57 :: uint_units d
  end.

(** [Number::toString] on an integer Number: an optional minus sign and
    the decimal digits, no leading zero. *)
Definition Number_toString (n : Z) : jsstring :=
  if (n <? 0)%Z then 45 :: uint_units (N.to_uint (Z.abs_N n))
  else uint_units (N.to_uint (Z.to_N n)).

(** [x + 1] on an integer Number [x], as [x++] computes it: the sum
    rounded to the nearest double, ties to the even significand. From
    -2^53 to 2^53 - 1 the sum is a double and nothing is rounded. In the
    binade after that, on either side, the doubles are the even integers
    and the sum lies halfway between [x] and [x + 2]: it goes to the one
    that is a multiple of 4. Further out the sum is nearer to [x] than to
    any other double. *)
Definition Number_increment (x : Z) : Z :=
  if ((- 2 ^ 53 <=? x) && (x <? 2 ^ 53))%Z then (x + 1)%Z
  else if ((Z.abs x <? 2 ^ 54) && (x mod 4 =? 2))%Z then (x + 2)%Z
  else x.

(** ** JSON text

    [JSON.stringify] and [JSON.parse] on the values the store holds:
    strings, integer Numbers, arrays and plain objects (members in
    property order). *)

#[warnings="-register-all"]
Inductive json : Type :=
  | JNull
  | JBool (b : bool)
  | JNum (n : Z)
  | JStr (s : jsstring)
  | JArr (l : list json)
  | JObj (m : list (jsstring * json)).

Definition hex_digit (n : N) : N := if n <? 10 then 48 + n else 87 + n.

(** [\uXXXX], lower-case hexadecimal *)
Definition unicode_escape (c : N) : jsstring :=
  [92; 117; hex_digit (c / 4096); hex_digit (c / 256 mod 16);
   hex_digit (c / 16 mod 16); hex_digit (c mod 16)].

Definition is_high_surrogate (c : N) : bool := (0xD800 <=? c) && (c <=? 0xDBFF).
Definition is_low_surrogate (c : N) : bool := (0xDC00 <=? c) && (c <=? 0xDFFF).

Definition escape_unit (c : N) : jsstring :=
  if c =? 8 then [92; 98]
  else if c =? 9 then [92; 116]
  else if c =? 10 then [92; 110]
  else if c =? 12 then [92; 102]
  else if c =? 13 then [92; 114]
  else if c =? 34 then [92; 34]
  else if c =? 92 then [92; 92]
  else if c <? 32 then unicode_escape c
  else [c].

Fixpoint quote_units (s : jsstring) : jsstring :=
  match s with
  | [] => []
  | c :: r =>
      if is_high_surrogate c then
        match r with
        | d :: r' =>
            if is_low_surrogate d then c :: d :: quote_units r'
            else unicode_escape c ++ quote_units r
        | [] => unicode_escape c
        end
      else if is_low_surrogate c then unicode_escape c ++ quote_units r
      else escape_unit c ++ quote_units r
  end.

(** [QuoteJSONString] *)
Definition QuoteJSONString (s : jsstring) : jsstring :=
  34 :: quote_units s ++ [34].

Fixpoint join_comma (parts : list jsstring) : jsstring :=
  match parts with
  | [] => []
  | p :: ps => match ps with [] => p | _ => p ++ 44 :: join_comma ps end
  end.

Definition member_text (k v : jsstring) : jsstring :=
  QuoteJSONString k ++ 58 :: v.

(** [JSON.stringify(j)] with no replacer and no indentation. *)
Fixpoint stringify (j : json) : jsstring :=
  match j with
  | JNull => js "null"
  | JBool true => js "true"
  | JBool false => js "false"
  | JNum n => Number_toString n
  | JStr s => QuoteJSONString s
  | JArr l => 91 :: join_comma (List.map stringify l) ++ [93]
  | JObj m =>
      123 :: join_comma (List.map (fun kv => member_text (fst kv) (stringify (snd kv))) m)
          ++ [125]
  end.

Definition is_json_ws (c : N) : bool :=
  (c =? 9) || (c =? 10) || (c =? 13) || (c =? 32).

Fixpoint skip_ws (s : jsstring) : jsstring :=
  match s with
  | [] => []
  | c :: s' => if is_json_ws c then skip_ws s' else s
  end.

Definition hex_value (c : N) : option N :=
  if (48 <=? c) && (c <=? 57) then Some (c - 48)
  else if (97 <=? c) && (c <=? 102) then Some (c - 87)
  else if (65 <=? c) && (c <=? 70) then Some (c - 55)
  else None.

Definition hex4 (a b c d : N) : option N :=
  match hex_value a, hex_value b, hex_value c, hex_value d with
  | Some x3, Some x2, Some x1, Some x0 => Some (x3 * 4096 + x2 * 256 + x1 * 16 + x0)
  | _, _, _, _ => None
  end.

Definition simple_escape (e : N) : option N :=
  if e =? 34 then Some 34
  else if e =? 92 then Some 92
  else if e =? 47 then Some 47
  else if e =? 98 then Some 8
  else if e =? 102 then Some 12
  else if e =? 110 then Some 10
  else if e =? 114 then Some 13
  else if e =? 116 then Some 9
  else None.

Definition cons_unit (c : N) (r : option (jsstring * jsstring)) :
    option (jsstring * jsstring) :=
  match r with
  | Some (s, rest) => Some (c :: s, rest)
  | None => None
  end.

(** The characters of a JSON string after its opening quote, up to and
    including the closing quote. *)
Fixpoint parse_units (s : jsstring) : option (jsstring * jsstring) :=
  match s with
  | [] => None
  | c :: r =>
      if c =? 34 then Some ([], r)
      else if c =? 92 then
        match r with
        | [] => None
        | e :: r1 =>
            if e =? 117 then
              match r1 with
              | h3 :: h2 :: h1 :: h0 :: r2 =>
                  match hex4 h3 h2 h1 h0 with
                  | Some v => cons_unit v (parse_units r2)
                  | None => None
                  end
              | _ => None
              end
            else
              match simple_escape e with
              | Some v => cons_unit v (parse_units r1)
              | None => None
              end
        end
      else if c <? 32 then None
      else cons_unit c (parse_units r)
  end.

Definition digit_of (c : N) : option (Decimal.uint -> Decimal.uint) :=
  if c =? 48 then Some D0 else if c =? 49 then Some D1
  else if c =? 50 then Some D2 else if c =? 51 then Some D3
  else if c =? 52 then Some D4 else if c =? 53 then Some D5
  else if c =? 54 then Some D6 else if c =? 55 then Some D7
  else if c =? 56 then Some D8 else if c =? 57 then Some D9
  else None.

Fixpoint read_digits (s : jsstring) : Decimal.uint * jsstring :=
  match s with
  | [] => (Nil, [])
  | c :: r =>
      match digit_of c with
      | Some D => let (d, rest) := read_digits r in (D d, rest)
      | None => (Nil, s)
      end
  end.

(** A number literal may not go on with a fraction or an exponent: such
    literals denote Numbers that are not integers of the embedding, and
    they are not parsed. *)
Definition ends_number (rest : jsstring) : bool :=
  match rest with
  | [] => true
  | c :: _ => negb ((c =? 46) || (c =? 101) || (c =? 69))
  end.

Definition parse_nat (s : jsstring) : option (N * jsstring) :=
  let (d, rest) := read_digits s in
  if ends_number rest then
    match d with
    | Nil => None
    | D0 Nil => Some (0, rest)
    | D0 _ => None
    | _ => Some (N.of_uint d, rest)
    end
  else None.

Definition parse_number (s : jsstring) : option (Z * jsstring) :=
  match s with
  | [] => None
  | c :: r =>
      if c =? 45 then
        match parse_nat r with
        | Some (n, rest) => Some ((- Z.of_N n)%Z, rest)
        | None => None
        end
      else
        match parse_nat s with
        | Some (n, rest) => Some (Z.of_N n, rest)
        | None => None
        end
  end.

(** The rest of [s] after the character [c], when [s] starts with it. *)
Definition expect (c : N) (s : jsstring) : option jsstring :=
  match s with
  | d :: r => if c =? d then Some r else None
  | [] => None
  end.

Fixpoint strip_prefix (p s : jsstring) : option jsstring :=
  match p with
  | [] => Some s
  | c :: p' =>
      match expect c s with
      | Some s' => strip_prefix p' s'
      | None => None
      end
  end.

Definition parse_word (w : jsstring) (v : json) (s : jsstring) :
    option (json * jsstring) :=
  match strip_prefix w s with
  | Some rest => Some (v, rest)
  | None => None
  end.

(** Recursive descent over the JSON grammar; [fuel] bounds the number of
    nested and successive values. *)
Fixpoint parse_value (fuel : nat) (s : jsstring) : option (json * jsstring) :=
  match fuel with
  | O => None
  | S fuel =>
      match skip_ws s with
      | [] => None
      | c :: r =>
          if c =? 123 then
            match expect 125 (skip_ws r) with
            | Some r' => Some (JObj [], r')
            | None =>
                match parse_members fuel r with
                | Some (m, r') => Some (JObj m, r')
                | None => None
                end
            end
          else if c =? 91 then
            match expect 93 (skip_ws r) with
            | Some r' => Some (JArr [], r')
            | None =>
                match parse_elements fuel r with
                | Some (l, r') => Some (JArr l, r')
                | None => None
                end
            end
          else if c =? 34 then
            match parse_units r with
            | Some (str, r') => Some (JStr str, r')
            | None => None
            end
          else if c =? 110 then parse_word (js "ull") JNull r
          else if c =? 116 then parse_word (js "rue") (JBool true) r
          else if c =? 102 then parse_word (js "alse") (JBool false) r
          else
            match parse_number (c :: r) with
            | Some (n, r') => Some (JNum n, r')
            | None => None
            end
      end
  end
with parse_elements (fuel : nat) (s : jsstring) : option (list json * jsstring) :=
  match fuel with
  | O => None
  | S fuel =>
      match parse_value fuel s with
      | Some (v, r) =>
          match expect 44 (skip_ws r) with
          | Some r' =>
              match parse_elements fuel r' with
              | Some (vs, r'') => Some (v :: vs, r'')
              | None => None
              end
          | None =>
              match expect 93 (skip_ws r) with
              | Some r' => Some ([v], r')
              | None => None
              end
          end
      | None => None
      end
  end
with parse_members (fuel : nat) (s : jsstring) :
    option (list (jsstring * json) * jsstring) :=
  match fuel with
  | O => None
  | S fuel =>
      match expect 34 (skip_ws s) with
      | Some r0 =>
          match parse_units r0 with
          | Some (k, r1) =>
              match expect 58 (skip_ws r1) with
              | Some r2 =>
                  match parse_value fuel r2 with
                  | Some (v, r3) =>
                      match expect 44 (skip_ws r3) with
                      | Some r4 =>
                          match parse_members fuel r4 with
                          | Some (m, r5) => Some ((k, v) :: m, r5)
                          | None => None
                          end
                      | None =>
                          match expect 125 (skip_ws r3) with
                          | Some r4 => Some ([(k, v)], r4)
                          | None => None
                          end
                      end
                  | None => None
                  end
              | None => None
              end
          | None => None
          end
      | None => None
      end
  end.

(** [JSON.parse(s)]: [None] when the text is not JSON (a [SyntaxError])
    or holds a number that is not an integer literal. *)
Definition JSON_parse (s : jsstring) : option json :=
  match parse_value (S (length s)) s with
  | Some (j, rest) => match skip_ws rest with [] => Some j | _ => None end
  | None => None
  end.

(** ** Data model *)

Module Comment.
Record t : Type := mk {
  author : jsstring;
  text : jsstring;
  date : jsstring
}.
End Comment.

Module Event.
Record t : Type := mk {
  id : jsstring;
  title : jsstring;
  description : jsstring;
  imageUrl : jsstring;
  votes : Z;
  category : jsstring;
  date : jsstring;
  comments : list Comment.t
}.

Definition set_votes (v : Z) (e : t) : t :=
  mk (id e) (title e) (description e) (imageUrl e) v
     (category e) (date e) (comments e).

(** [event.votes++] *)
Definition incr_votes (e : t) : t := set_votes (Number_increment (votes e)) e.

(** [event.comments.push(c)] *)
Definition push_comment (c : Comment.t) (e : t) : t :=
  mk (id e) (title e) (description e) (imageUrl e) (votes e)
     (category e) (date e) (comments e ++ [c]).
End Event.

#[global] Instance Comment_eq_dec : EqDecision Comment.t.
Proof. solve_decision. Defined.

#[global] Instance Event_eq_dec : EqDecision Event.t.
Proof. solve_decision. Defined.

(** The object literals of the script list their properties in one order
    (events: id, title, description, imageUrl, votes, category, date,
    comments; comments: author, text, date); [JSON.stringify] writes the
    members in that order. *)
Definition comment_to_json (c : Comment.t) : json :=
  JObj [ (js "author", JStr (Comment.author c));
         (js "text", JStr (Comment.text c));
         (js "date", JStr (Comment.date c)) ].

Definition event_to_json (e : Event.t) : json :=
  JObj [ (js "id", JStr (Event.id e));
         (js "title", JStr (Event.title e));
         (js "description", JStr (Event.description e));
         (js "imageUrl", JStr (Event.imageUrl e));
         (js "votes", JNum (Event.votes e));
         (js "category", JStr (Event.category e));
         (js "date", JStr (Event.date e));
         (js "comments", JArr (List.map comment_to_json (Event.comments e))) ].

Definition events_to_json (evs : list Event.t) : json :=
  JArr (List.map event_to_json evs).

(** [JSON.stringify(events)] *)
Definition JSON_stringify (evs : list Event.t) : jsstring :=
  stringify (events_to_json evs).

Definition key_is (k : jsstring) (name : string) : bool :=
  bool_decide (k = js name).

Definition comment_of_json (j : json) : option Comment.t :=
  match j with
  | JObj [ (k1, JStr a); (k2, JStr t); (k3, JStr d) ] =>
      if key_is k1 "author" && key_is k2 "text" && key_is k3 "date"
      then Some (Comment.mk a t d) else None
  | _ => None
  end.

Fixpoint all_some {A B : Type} (f : A -> option B) (l : list A) : option (list B) :=
  match l with
  | [] => Some []
  | x :: l' =>
      match f x, all_some f l' with
      | Some y, Some ys => Some (y :: ys)
      | _, _ => None
      end
  end.

Definition event_of_json (j : json) : option Event.t :=
  match j with
  | JObj [ (k1, JStr i); (k2, JStr t); (k3, JStr d); (k4, JStr u);
           (k5, JNum v); (k6, JStr c); (k7, JStr dt); (k8, JArr cs) ] =>
      if key_is k1 "id" && key_is k2 "title" && key_is k3 "description"
         && key_is k4 "imageUrl" && key_is k5 "votes" && key_is k6 "category"
         && key_is k7 "date" && key_is k8 "comments"
      then
        match all_some comment_of_json cs with
        | Some cs' => Some (Event.mk i t d u v c dt cs')
        | None => None
        end
      else None
  | _ => None
  end.

(** The value [JSON.parse] builds, read as a collection of the data
    model; [None] for values of another shape. *)
Definition events_of_json (j : json) : option (list Event.t) :=
  match j with
  | JArr l => all_some event_of_json l
  | _ => None
  end.

Definition JSON_parse_events (s : jsstring) : option (list Event.t) :=
  match JSON_parse s with
  | Some j => events_of_json j
  | None => None
  end.

(** ** [Array.prototype.sort]

    [sort] is stable, and for a comparator that orders the elements
    consistently its result is the one stable arrangement of the array in
    that order; [js_sort] computes it by insertion. A comparator result
    of [NaN] ([None]) counts as [+0]. The script only sorts spread copies
    ([[...a].sort(f)]), so the sorted array is a new value. *)

Definition SortCompare {A : Type} (comparefn : A -> A -> option Z) (x y : A) : Z :=
  match comparefn x y with
  | Some v => v
  | None => 0%Z
  end.

Fixpoint sorted_insert {A : Type} (comparefn : A -> A -> option Z)
    (x : A) (l : list A) : list A :=
  match l with
  | [] => [x]
  | y :: l' =>
      if (SortCompare comparefn x y <=? 0)%Z then x :: l
      else y :: sorted_insert comparefn x l'
  end.

Fixpoint js_sort {A : Type} (comparefn : A -> A -> option Z) (l : list A) : list A :=
  match l with
  | [] => []
  | x :: l' => sorted_insert comparefn x (js_sort comparefn l')
  end.

(** ** Dates

    [iso_time] reads the format [Date.prototype.toISOString] writes,
    [YYYY-MM-DDTHH:mm:ss.sssZ] (the milliseconds may be left out, as in
    the seed data), as milliseconds since the epoch. *)

Definition digit_value (c : N) : option Z :=
  if (48 <=? c) && (c <=? 57) then Some (Z.of_N (c - 48)) else None.

Fixpoint read_fixed (k : nat) (acc : Z) (s : jsstring) : option (Z * jsstring) :=
  match k with
  | O => Some (acc, s)
  | S k' =>
      match s with
      | c :: r =>
          match digit_value c with
          | Some d => read_fixed k' (10 * acc + d)%Z r
          | None => None
          end
      | [] => None
      end
  end.

Definition is_leap (y : Z) : bool :=
  ((y mod 4 =? 0) && negb (y mod 100 =? 0) || (y mod 400 =? 0))%Z.

Definition days_in_month (y m : Z) : Z :=
  (if m =? 2 then (if is_leap y then 29 else 28)
   else if (m =? 4) || (m =? 6) || (m =? 9) || (m =? 11) then 30
   else 31)%Z.

Definition days_from_civil (y m d : Z) : Z :=
  (let y' := if m <=? 2 then y - 1 else y in
   let era := y' / 400 in
   let yoe := y' - era * 400 in
   let mp := (m + 9) mod 12 in
   let doy := (153 * mp + 2) / 5 + d - 1 in
   let doe := yoe * 365 + yoe / 4 - yoe / 100 + doy in
   era * 146097 + doe - 719468)%Z.

Definition iso_time (s : jsstring) : option Z :=
  '(y, s) ← read_fixed 4 0 s;
  s ← expect 45 s;
  '(m, s) ← read_fixed 2 0 s;
  s ← expect 45 s;
  '(d, s) ← read_fixed 2 0 s;
  s ← expect 84 s;
  '(h, s) ← read_fixed 2 0 s;
  s ← expect 58 s;
  '(mi, s) ← read_fixed 2 0 s;
  s ← expect 58 s;
  '(sec, s) ← read_fixed 2 0 s;
  '(ms, s) ← match s with
             | 46 :: r => read_fixed 3 0 r
             | _ => Some (0%Z, s)
             end;
  match s with
  | [90] =>
      if ((1 <=? m) && (m <=? 12) && (1 <=? d) && (d <=? days_in_month y m)
          && (mi <=? 59) && (sec <=? 59)
          && ((h <=? 23) || (h =? 24) && (mi =? 0) && (sec =? 0) && (ms =? 0)))%Z
      then Some (days_from_civil y m d * 86400000 + h * 3600000
                 + mi * 60000 + sec * 1000 + ms)%Z
      else None
  | _ => None
  end.

(** ** The page state *)

Record State : Type := mkState {
  (** the global array [events] *)
  events : list Event.t;
  (** [window.localStorage] *)
  localStorage : gmap string jsstring;
  (** the event object the comment form of the detail section was built
      for (the [event] its submit listener closes over), as a position in
      [events]; [None] when the page holds no comment form *)
  detail : option nat
}.

(** The initial value of [let events = [...]]. *)
Definition seed_1 : Event.t :=
  Event.mk (js "1")
    (js "Conferencia de Inteligencia Artificial 2025")
    (js "Explorando los últimos avances en inteligencia artificial, machine learning y el futuro de la automatización. Únete a expertos de la industria.")
    (js "PROYECTO/Imagenes/Conferencia_ai.jpg")
    120 (js "tecnologia") (js "2025-07-15")
    [ Comment.mk (js "Juan Perez") (js "¡Muy emocionado por esta conferencia!")
        (js "2025-05-18T10:00:00Z");
      Comment.mk (js "Maria Gomez") (js "Espero que haya sesiones sobre IA ética.")
        (js "2025-05-18T11:30:00Z") ].

Definition seed_2 : Event.t :=
  Event.mk (js "2")
    (js "Festival de Música en el Parque")
    (js "Un fin de semana lleno de los mejores artistas de la escena independiente local e internacional. Habrá food trucks y actividades recreativas.")
    (js "PROYECTO/Imagenes/Fiesta.jpeg")
    85 (js "musica") (js "2025-08-22") [].

Definition seed_3 : Event.t :=
  Event.mk (js "3")
    (js "Exposición de Arte Moderno: " ++ 34 :: js "Formas del Silencio" ++ [34])
    (js "Una colección curada de obras de arte contemporáneo de artistas emergentes. Explora la expresión a través de diversas técnicas y medios.")
    (js "PROYECTO/Imagenes/Arte.jpg")
    95 (js "arte") (js "2025-09-05")
    [ Comment.mk (js "Carlos Lopez")
        (js "¡Impresionante exhibición! Me encantó la sección de escultura.")
        (js "2025-05-17T15:00:00Z") ].

Definition seed_4 : Event.t :=
  Event.mk (js "4")
    (js "Carrera 10KM Ciudad Saludable")
    (js "Únete a la carrera anual por las calles de la ciudad, promoviendo la salud y el bienestar. Abierta a corredores de todos los niveles.")
    (js "PROYECTO/Imagenes/10KM.webp")
    60 (js "deporte") (js "2025-10-10") [].

Definition seed_5 : Event.t :=
  Event.mk (js "5")
    (js "Taller de Fotografía Urbana")
    (js "Aprende técnicas de fotografía callejera con un fotógrafo profesional. Exploraremos los rincones más fotogénicos de la ciudad.")
    (js "PROYECTO/Imagenes/FotografiaUrbana.jpg")
    75 (js "arte") (js "2025-07-20") [].

Definition seed_events : list Event.t := [seed_1; seed_2; seed_3; seed_4; seed_5].

(** What a handler shows: the text it puts in a message area or on the
    console, and the data it renders. [VoteInterrupted] is the vote that
    was logged on the console by a handler that then threw. *)
Inductive Feedback : Type :=
  | Nothing
  | VoteRegistered (title : jsstring) (votes : Z)
  | VoteInterrupted (title : jsstring) (votes : Z)
  | EventNotFound (message : jsstring)
  | DetailRendered (event : Event.t) (comments : list Comment.t)
  | CommentAdded (message : jsstring) (comments : list Comment.t)
  | CommentRejected (message : jsstring)
  | EventCreated (message : jsstring) (newEvent : Event.t)
  | FormRejected (message : jsstring) (errors : list (jsstring * jsstring)).

Definition set_events (evs : list Event.t) (st : State) : State :=
  mkState evs (localStorage st) (detail st).

Definition set_detail (d : option nat) (st : State) : State :=
  mkState (events st) (localStorage st) d.

(** [localStorage.setItem('events', JSON.stringify(events))] *)
Definition saveEventsToLocalStorage (st : State) : State :=
  mkState (events st)
          (<["events"%string := JSON_stringify (events st)]> (localStorage st))
          (detail st).

(** The collection the mirror holds: [JSON.parse(localStorage.getItem('events'))]. *)
Definition persisted (st : State) : option (list Event.t) :=
  match localStorage st !! "events"%string with
  | Some text => JSON_parse_events text
  | None => None
  end.

(** The part of the [DOMContentLoaded] listener that fills [events], run
    on a page whose storage holds [ls]. [None]: [JSON.parse] throws, or
    the stored value is no collection of the data model. *)
Definition DOMContentLoaded (ls : gmap string jsstring) : option State :=
  let page := mkState seed_events ls None in
  match ls !! "events"%string with
  | Some storedEvents =>
      if truthy storedEvents then
        match JSON_parse_events storedEvents with
        | Some evs => Some (set_events evs page)
        | None => None
        end
      else Some (saveEventsToLocalStorage page)
  | None => Some (saveEventsToLocalStorage page)
  end.

(** [events.find(e => e.id === eventId)], with the position of the
    object found. *)
Definition find_event (eventId : jsstring) (evs : list Event.t) :
    option (nat * Event.t) :=
  list_find (fun e => Event.id e = eventId) evs.

Definition votes_desc (a b : Event.t) : option Z :=
  Some (Event.votes b - Event.votes a)%Z.

(** [[...events].sort((a, b) => b.votes - a.votes)] *)
Definition sortedEvents (evs : list Event.t) : list Event.t :=
  js_sort votes_desc evs.

(** [loadRanking] reads [events] and returns the events it lists. *)
Definition loadRanking (st : State) : State * list Event.t :=
  (st, sortedEvents (events st)).

(** How a call ends: it returns, or it throws. *)
Inductive Completion : Type :=
  | Normal
  | Throw.

#[global] Instance Completion_eq_dec : EqDecision Completion.
Proof. solve_decision. Defined.

(** [handleVote]. Between [event.votes++] with its [console.log] and
    [saveEventsToLocalStorage()] the handler updates the vote counters in
    the document: [$$] with a selector built from the id, which throws a
    [SyntaxError] when the selector is not valid (an id that holds a line
    break makes it so), and [button.previousElementSibling.querySelector]
    for every button found, which throws a [TypeError] for a button
    without a previous sibling. [counters] tells how this update ends;
    when it throws, the handler is left with the vote counted and logged
    and nothing saved. *)
Definition handleVote (counters : Completion) (eventId : jsstring) (st : State) :
    State * Feedback :=
  match find_event eventId (events st) with
  | Some (i, event) =>
      let event := Event.incr_votes event in
      let st := set_events (<[i := event]> (events st)) st in
      match counters with
      | Throw => (st, VoteInterrupted (Event.title event) (Event.votes event))
      | Normal =>
          let st := saveEventsToLocalStorage st in
          let (st, _) := loadRanking st in
          (st, VoteRegistered (Event.title event) (Event.votes event))
      end
  | None => (st, Nothing)
  end.

(** The handler threw. *)
Definition interrupted (shown : Feedback) : bool :=
  match shown with
  | VoteInterrupted _ _ => true
  | _ => false
  end.

(** What a vote that counts leaves on the console, and whether the
    handler went on to its end. *)
Definition logged (counters : Completion) (title : jsstring) (votes : Z) : Feedback :=
  match counters with
  | Normal => VoteRegistered title votes
  | Throw => VoteInterrupted title votes
  end.

Section Handlers.

(** [new Date(s).getTime()], [None] for an invalid date ([NaN]). Outside
    the date-time string format the reading of a string is left to the
    browser, so the function is a parameter. *)
Variable Date_value : jsstring -> option Z.

(** [(a, b) => new Date(b.date) - new Date(a.date)] *)
Definition date_desc (a b : Comment.t) : option Z :=
  match Date_value (Comment.date b), Date_value (Comment.date a) with
  | Some tb, Some ta => Some (tb - ta)%Z
  | _, _ => None
  end.

(** The comments [renderComments] lists, in the order it lists them. *)
Definition renderComments (comments : list Comment.t) : list Comment.t :=
  js_sort date_desc comments.

Definition loadEventDetail (eventId : jsstring) (st : State) : State * Feedback :=
  match find_event eventId (events st) with
  | None =>
      (set_detail None st,
       EventNotFound (js "Evento no encontrado. Por favor, vuelve a la página de explorar."))
  | Some (i, event) =>
      (set_detail (Some i) st,
       DetailRendered event (renderComments (Event.comments event)))
  end.

(** The submit listener of the comment form. [authorValue] and
    [textValue] are the values of the two inputs, [isoNow] is
    [new Date().toISOString()]. *)
Definition commentSubmit (authorValue textValue isoNow : jsstring) (st : State) :
    State * Feedback :=
  match detail st with
  | None => (st, Nothing)
  | Some i =>
      match events st !! i with
      | None => (st, Nothing)
      | Some event =>
          let author := trim authorValue in
          let text := trim textValue in
          if truthy author && truthy text then
            let newComment := Comment.mk author text isoNow in
            let event := Event.push_comment newComment event in
            let st := set_events (<[i := event]> (events st)) st in
            (saveEventsToLocalStorage st,
             CommentAdded (js "Comentario añadido exitosamente!")
                          (renderComments (Event.comments event)))
          else
            (st, CommentRejected (js "Por favor, completa tu nombre y comentario."))
      end
  end.

(** Adding a comment to the event [eventId]: the detail view of the event
    is opened and its comment form submitted. When the event is not
    found the page holds no form to submit. *)
Definition AddComment (eventId authorValue textValue isoNow : jsstring)
    (st : State) : State * Feedback :=
  let (st', shown) := loadEventDetail eventId st in
  match detail st' with
  | Some _ => commentSubmit authorValue textValue isoNow st'
  | None => (st', shown)
  end.

(** The comments of the event [eventId] as the detail view lists them. *)
Definition CommentsOf (eventId : jsstring) (st : State) : option (list Comment.t) :=
  match find_event eventId (events st) with
  | Some (_, event) => Some (renderComments (Event.comments event))
  | None => None
  end.

End Handlers.

(** ** Form validation and event creation *)

(** What [validateField] reads of a form control. The markup of the page
    decides [type] and [tagName], the browser decides [checkValidity()];
    all three are given with the control. *)
Record InputElement : Type := mkInput {
  value : jsstring;
  type : jsstring;
  tagName : jsstring;
  checkValidity : bool
}.

Record ValidationRules : Type := mkRules {
  required : bool;
  minLength : option nat;
  maxLength : option nat
}.

(** [rules.minLength && value.length < rules.minLength]: a missing bound
    and a bound of 0 are both falsy. *)
Definition shorter_than (bound : option nat) (v : jsstring) : bool :=
  match bound with
  | Some (S m) => Nat.ltb (length v) (S m)
  | _ => false
  end.

Definition longer_than (bound : option nat) (v : jsstring) : bool :=
  match bound with
  | Some (S m) => Nat.ltb (S m) (length v)
  | _ => false
  end.

Definition bound_text (bound : option nat) : jsstring :=
  match bound with
  | Some m => Number_toString (Z.of_nat m)
  | None => js "undefined"
  end.

(** [validateField]: the returned flag [isValid] and the text left in the
    error element of the field (empty when the field is valid). *)
Definition validateField (inputElement : InputElement)
    (validationRules : ValidationRules) : bool * jsstring :=
  let v := trim (value inputElement) in
  if required validationRules && bool_decide (v = []) then
    (false, js "Este campo es obligatorio.")
  else if shorter_than (minLength validationRules) v then
    (false, js "Debe tener al menos " ++ bound_text (minLength validationRules)
            ++ js " caracteres.")
  else if longer_than (maxLength validationRules) v then
    (false, js "No debe exceder " ++ bound_text (maxLength validationRules)
            ++ js " caracteres.")
  else if bool_decide (type inputElement = js "email")
          && negb (checkValidity inputElement) then
    (false, js "Introduce un email válido.")
  else if bool_decide (type inputElement = js "url")
          && negb (bool_decide (v = []))
          && negb (checkValidity inputElement) then
    (false, js "Introduce una URL válida.")
  else if bool_decide (tagName inputElement = js "SELECT")
          && bool_decide (v = []) then
    (false, js "Por favor, selecciona una opción.")
  else if bool_decide (type inputElement = js "date")
          && negb (checkValidity inputElement) then
    (false, js "Introduce una fecha válida.")
  else (true, []).

(** The five controls of [#create-event-form]. *)
Record CreateEventForm : Type := mkForm {
  event_title : InputElement;
  event_description : InputElement;
  event_date : InputElement;
  event_image : InputElement;
  event_category : InputElement
}.

Record Field : Type := mkField {
  name : jsstring;
  input : InputElement;
  rules : ValidationRules
}.

(** The array [fields] of the submit listener, each entry with the
    control its [id] selects. *)
Definition fields (form : CreateEventForm) : list Field :=
  [ mkField (js "title") (event_title form) (mkRules true (Some 5%nat) (Some 100%nat));
    mkField (js "description") (event_description form) (mkRules true (Some 20%nat) None);
    mkField (js "date") (event_date form) (mkRules true None None);
    mkField (js "imageUrl") (event_image form) (mkRules false None None);
    mkField (js "category") (event_category form) (mkRules true None None) ].

(** The error elements the listener leaves visible: one entry, name and
    message, for each field [validateField] rejects. *)
Fixpoint field_errors (fs : list Field) : list (jsstring * jsstring) :=
  match fs with
  | [] => []
  | f :: fs' =>
      let (isValid, message) := validateField (input f) (rules f) in
      if isValid then field_errors fs' else (name f, message) :: field_errors fs'
  end.

(** [formIsValid] after the [forEach] over [fields]. *)
Definition formIsValid (fs : list Field) : bool :=
  forallb (fun f => fst (validateField (input f) (rules f))) fs.

Definition placeholder_image : jsstring := js "public/images/event-placeholder.jpg".

(** The object [eventData]: [eventData[field.name] = input.value.trim()]. *)
Record EventData : Type := mkData {
  data_title : jsstring;
  data_description : jsstring;
  data_date : jsstring;
  data_imageUrl : jsstring;
  data_category : jsstring
}.

Definition eventData (form : CreateEventForm) : EventData :=
  mkData (trim (value (event_title form)))
         (trim (value (event_description form)))
         (trim (value (event_date form)))
         (trim (value (event_image form)))
         (trim (value (event_category form))).

(** The [newEvent] literal. [now] is [Date.now()], [fragment] is
    [Math.random().toString(36).substring(2, 9)]. *)
Definition newEvent (form : CreateEventForm) (now : Z) (fragment : jsstring) : Event.t :=
  let data := eventData form in
  Event.mk (js "event-" ++ Number_toString now ++ 45 :: fragment)
           (data_title data)
           (data_description data)
           (if truthy (data_imageUrl data) then data_imageUrl data
            else placeholder_image)
           0
           (data_category data)
           (data_date data)
           [].

(** The submit listener of [#create-event-form]. *)
Definition createEventSubmit (form : CreateEventForm) (now : Z) (fragment : jsstring)
    (st : State) : State * Feedback :=
  if formIsValid (fields form) then
    let e := newEvent form now fragment in
    let st := set_events (events st ++ [e]) st in
    (saveEventsToLocalStorage st, EventCreated (js "Evento creado exitosamente!") e)
  else
    (st, FormRejected (js "Por favor, corrige los errores en el formulario.")
                      (field_errors (fields form))).

(** ** Operations and runs *)

Inductive Operation : Type :=
  | Vote (counters : Completion) (eventId : jsstring)
  | OpenDetail (eventId : jsstring)
  | SubmitComment (authorValue textValue isoNow : jsstring)
  | SubmitEvent (form : CreateEventForm) (now : Z) (fragment : jsstring).

Definition step (Date_value : jsstring -> option Z) (op : Operation) (st : State) :
    State * Feedback :=
  match op with
  | Vote counters eventId => handleVote counters eventId st
  | OpenDetail eventId => loadEventDetail Date_value eventId st
  | SubmitComment a t d => commentSubmit Date_value a t d st
  | SubmitEvent form now fragment => createEventSubmit form now fragment st
  end.

(** One click on the vote button of [eventId] for each entry of
    [documents], which tells how the update of the counters ends at that
    click; with the count each click logs. *)
Fixpoint vote_times (documents : list Completion) (eventId : jsstring) (st : State) :
    State * list Feedback :=
  match documents with
  | [] => (st, [])
  | counters :: documents' =>
      let (st1, shown) := handleVote counters eventId st in
      let (st2, rest) := vote_times documents' eventId st1 in
      (st2, shown :: rest)
  end.

(** The page after the operations [ops], in order. *)
Fixpoint run (Date_value : jsstring -> option Z) (ops : list Operation) (st : State) :
    State :=
  match ops with
  | [] => st
  | op :: ops' => run Date_value ops' (fst (step Date_value op st))
  end.

(** The mirror holds the text of the collection in memory. *)
Definition mirrored (st : State) : Prop :=
  localStorage st !! "events"%string = Some (JSON_stringify (events st)).

(** ** Auxiliary notions of the proofs *)

(** The characters that may follow a value in the text [stringify]
    writes: nothing, a comma or a closing bracket. *)
Definition follows (rest : jsstring) : Prop :=
  match rest with
  | [] => True
  | c :: _ => c = 44 \/ c = 93 \/ c = 125
  end.

(** The first character of the text of a value starts a value: it is no
    white space and no closing bracket. *)
Definition starts_value (c : N) : Prop :=
  is_json_ws c = false /\ c <> 93 /\ c <> 125 /\ c <> 44.

(** Fuel that suffices to read the text of a value back. *)
Fixpoint json_size (j : json) : nat :=
  match j with
  | JArr l => S (list_sum (List.map (fun v => S (json_size v)) l))
  | JObj m => S (list_sum (List.map (fun kv => S (json_size (snd kv))) m))
  | _ => 1
  end.

Definition reads_back (j : json) : Prop :=
  forall fuel rest, (json_size j <= fuel)%nat -> follows rest ->
    parse_value fuel (stringify j ++ rest) = Some (j, rest).

(** The comparator [(a, b) => key(b) - key(a)]. *)
Definition by_key_desc {A : Type} (key : A -> Z) (a b : A) : option Z :=
  Some (key b - key a)%Z.

(** Arranged with the keys descending. *)
Definition descending {A : Type} (key : A -> Z) (l : list A) : Prop :=
  StronglySorted (fun a b => (key b <= key a)%Z) l.

(** The page after a first visit: nothing was stored, the seed events
    are in memory and were written to the mirror. *)
Definition first_visit : State :=
  saveEventsToLocalStorage (mkState seed_events ∅ None).

(** A field [validateField] rejects, and the entry its error element
    shows. *)
Definition rejected (f : Field) : Prop :=
  fst (validateField (input f) (rules f)) = false.

Definition error_entry (f : Field) : jsstring * jsstring :=
  (name f, snd (validateField (input f) (rules f))).

(** Controls as a page would declare them, for the examples below. *)
Definition text_control (v : jsstring) : InputElement :=
  mkInput v (js "text") (js "INPUT") true.

Definition textarea_control (v : jsstring) : InputElement :=
  mkInput v (js "textarea") (js "TEXTAREA") true.

Definition date_control (v : jsstring) : InputElement :=
  mkInput v (js "date") (js "INPUT") (truthy v).

Definition url_control (v : jsstring) (valid : bool) : InputElement :=
  mkInput v (js "url") (js "INPUT") valid.

Definition select_control (v : jsstring) : InputElement :=
  mkInput v (js "select-one") (js "SELECT") (truthy v).

Definition complete_form : CreateEventForm :=
  mkForm (text_control (js "  Feria  "))
         (textarea_control (js "Una feria del libro en la plaza."))
         (date_control (js "2025-12-01"))
         (url_control [] true)
         (select_control (js "arte")).

Definition incomplete_form : CreateEventForm :=
  mkForm (text_control (js " Rock "))
         (textarea_control (js "Concierto"))
         (date_control [])
         (url_control [] true)
         (select_control []).

(** Readings of the clock, [new Date().toISOString()], for the examples. *)
Definition noon : jsstring := js "2025-06-01T12:00:00.000Z".

Definition half_past_ten : jsstring := js "2025-05-18T10:30:00.000Z".

(** ** Further handlers *)

(** The click listener of [#dark-mode-toggle]. [dark] tells whether the
    body carries the class ['dark-mode'] before the click; the flag
    returned is [isDarkMode], which [setItem] stores as a string. *)
Definition darkModeToggle (dark : bool) (st : State) : bool * State :=
  let isDarkMode := negb dark in
  (isDarkMode,
   mkState (events st)
     (<["darkMode"%string := if isDarkMode then js "true" else js "false"]>
        (localStorage st))
     (detail st)).

(** [localStorage.getItem('darkMode') === 'true']: whether the
    DOMContentLoaded listener puts the page in dark mode. *)
Definition startsDark (ls : gmap string jsstring) : bool :=
  bool_decide (ls !! "darkMode"%string = Some (js "true")).


Section Listing.

Variable Date_value : jsstring -> option Z.

(** [(a, b) => new Date(a.date) - new Date(b.date)] *)
Definition date_asc (a b : Event.t) : option Z :=
  match Date_value (Event.date a), Date_value (Event.date b) with
  | Some ta, Some tb => Some (ta - tb)%Z
  | _, _ => None
  end.

(** [eventsToDisplay] in the timer of [loadEvents]. [displayCount] is
    [null] or a count; [null] and 0 are falsy. *)
Definition eventsToDisplay (displayCount : option nat) (evs : list Event.t) :
    list Event.t :=
  let sorted := js_sort date_asc evs in
  match displayCount with
  | Some (S n) => take (S n) sorted
  | _ => sorted
  end.

(** The timer of [loadEvents], run on the page as it is when the timer
    fires: the events whose cards it appends, in order. *)
Definition loadEvents (displayCount : option nat) (st : State) :
    State * list Event.t :=
  (st, eventsToDisplay displayCount (events st)).

End Listing.

(** ** Notions for the properties of runs *)

Definition opens_detail (op : Operation) : bool :=
  match op with
  | OpenDetail _ => true
  | _ => false
  end.

(** A vote at which the update of the counters throws. *)
Definition interrupts (op : Operation) : bool :=
  match op with
  | Vote Throw _ => true
  | _ => false
  end.

(** [E'] is [E] with votes and comments added and nothing else changed. *)
Definition grown (E E' : Event.t) : Prop :=
  Event.id E' = Event.id E
  /\ Event.title E' = Event.title E
  /\ Event.description E' = Event.description E
  /\ Event.imageUrl E' = Event.imageUrl E
  /\ Event.category E' = Event.category E
  /\ Event.date E' = Event.date E
  /\ (Event.votes E <= Event.votes E')%Z
  /\ Event.comments E `prefix_of` Event.comments E'.

(** The id [newEvent] builds from a clock value and a random fragment. *)
Definition generated_id (now : Z) (fragment : jsstring) : jsstring :=
  js "event-" ++ Number_toString now ++ 45 :: fragment.

(** The clock values and fragments the accepted event submissions of a
    run read; a refused submission reads neither. *)
Fixpoint created (ops : list Operation) : list (Z * jsstring) :=
  match ops with
  | [] => []
  | SubmitEvent form now fragment :: ops' =>
      if formIsValid (fields form) then (now, fragment) :: created ops'
      else created ops'
  | _ :: ops' => created ops'
  end.

(** The comment form on the page was built for position [i], and [find]
    finds the id [eventId] there. *)
Definition bound_to (eventId : jsstring) (i : nat) (st : State) : Prop :=
  detail st = Some i /\ exists E, find_event eventId (events st) = Some (i, E).

(** [new Date(s).getTime()] as a number, for a string that is a date. *)
Definition getTime (Date_value : jsstring -> option Z) (s : jsstring) : Z :=
  default 0%Z (Date_value s).

(** Arranged with the keys ascending. *)
Definition ascending {A : Type} (key : A -> Z) (l : list A) : Prop :=
  StronglySorted (fun a b => (key a <= key b)%Z) l.



(** A reading of dates for the examples: the date-time format of
    [iso_time], and the date-only form [YYYY-MM-DD], which stands for
    midnight UTC. *)
Definition date_or_time (s : jsstring) : option Z :=
  match iso_time s with
  | Some t => Some t
  | None => iso_time (s ++ js "T00:00:00Z")
  end.

(** ** Notions for the properties of the entered data *)

(** Only white space: what [trim] empties. *)
Definition blank (s : jsstring) : Prop :=
  Forall (fun c => is_white_space c = true) s.

(** Not empty, and with no white space at either end. *)
Definition trimmed (s : jsstring) : Prop := s <> [] /\ trim s = s.

Definition entered (c : Comment.t) : Prop :=
  trimmed (Comment.author c) /\ trimmed (Comment.text c).

(** An event as the creation form lets it in, with the votes and comments
    the handlers can have added. *)
Definition well_formed (E : Event.t) : Prop :=
  trimmed (Event.title E)
  /\ (5 <= length (Event.title E) <= 100)%nat
  /\ trimmed (Event.description E)
  /\ (20 <= length (Event.description E))%nat
  /\ trimmed (Event.date E)
  /\ trimmed (Event.category E)
  /\ Event.imageUrl E <> []
  /\ (0 <= Event.votes E)%Z
  /\ Forall entered (Event.comments E).

#[global] Instance blank_dec (s : jsstring) : Decision (blank s).
Proof. unfold blank. apply _. Defined.

#[global] Instance trimmed_dec (s : jsstring) : Decision (trimmed s).
Proof. unfold trimmed. apply _. Defined.

#[global] Instance entered_dec (c : Comment.t) : Decision (entered c).
Proof. unfold entered. apply _. Defined.

#[global] Instance well_formed_dec (E : Event.t) : Decision (well_formed E).
Proof. unfold well_formed. apply _. Defined.

(** ** Further examples *)

(** An afternoon on the page: a vote, a look at the first event, a
    comment there, and a new event. *)
Definition afternoon : list Operation :=
  [ Vote Normal (js "3");
    OpenDetail (js "1");
    SubmitComment (js " Ann ") (js "Hi") noon;
    SubmitEvent complete_form 1748779200000 (js "k3j2h1a") ].

(** What can follow the opening of a detail view without another view
    being opened; the first vote ends in a throw. *)
Definition on_the_detail_page : list Operation :=
  [ Vote Throw (js "1");
    SubmitComment (js "Luis") (js "Nos vemos") noon;
    SubmitEvent complete_form 1748779200000 (js "k3j2h1a");
    Vote Normal (js "2") ].

(** A collection in which two events carry the id ["1"], as a stored
    text can hold. *)
Definition twins : State :=
  mkState [seed_2; seed_1; Event.set_votes 7 seed_1] ∅ None.

(** The first seed event with its detail view open. *)
Definition viewing_first : State := set_detail (Some 0%nat) first_visit.

(** A collection whose one event has 2^53 votes, as a stored text can
    hold. *)
Definition saturated : State :=
  mkState [Event.set_votes (2 ^ 53) seed_1] ∅ None.

(** An event whose id holds a line break, and a storage whose mirror
    holds it. The card of the event carries the id in its
    [data-event-id], so a click on its vote button calls [handleVote]
    with the id, and the selector [handleVote] builds from it is not
    valid. *)
Definition two_lines : Event.t :=
  Event.mk [97; 10; 98] (js "Feria del libro")
    (js "Una feria del libro en la plaza.") placeholder_image
    3 (js "arte") (js "2025-12-01") [].

Definition two_lines_stored : gmap string jsstring :=
  {[ "events"%string := JSON_stringify [two_lines] ]}.

(** * Properties *)

(** ** Decimal numerals *)

Lemma digit_of_units_nil (s : jsstring) :
  match s with [] => True | c :: _ => digit_of c = None end ->
  read_digits s = (Nil, s).
Proof. destruct s as [|c r]; simpl; [reflexivity|]. intros ->. reflexivity. Qed.

Lemma read_digits_units (d : Decimal.uint) (rest : jsstring) :
  match rest with [] => True | c :: _ => digit_of c = None end ->
  read_digits (uint_units d ++ rest) = (d, rest).
Proof.
  intros Hrest.
  induction d as [|d IH|d IH|d IH|d IH|d IH|d IH|d IH|d IH|d IH|d IH]; simpl;
    try (rewrite IH; reflexivity).
  apply digit_of_units_nil, Hrest.
Qed.

Lemma to_uint_leading_zero (n : N) (d : Decimal.uint) :
  N.to_uint n = D0 d -> d = Nil /\ n = 0.
Proof.
  intros H.
  assert (Hn : unorm (D0 d) = D0 d).
  { rewrite <- H, <- (DecimalN.Unsigned.to_of (N.to_uint n)).
    f_equal. apply DecimalN.Unsigned.of_to. }
  rewrite unorm_D0 in Hn. unfold unorm in Hn.
  destruct (nzhead d) eqn:Hd; try (exfalso; congruence).
  - injection Hn as <-. split; [reflexivity|].
    apply DecimalN.Unsigned.to_uint_inj. now rewrite H.
  - injection Hn as ->. exfalso. exact (nzhead_nonzero _ _ Hd).
Qed.

Lemma to_uint_nonnil (n : N) : N.to_uint n <> Nil.
Proof.
  destruct n as [|p]; simpl; [discriminate|].
  apply DecimalPos.Unsigned.to_uint_nonnil.
Qed.

Lemma parse_nat_units (n : N) (rest : jsstring) :
  match rest with [] => True | c :: _ => digit_of c = None end ->
  ends_number rest = true ->
  parse_nat (uint_units (N.to_uint n) ++ rest) = Some (n, rest).
Proof.
  intros Hd He. unfold parse_nat. rewrite read_digits_units by exact Hd.
  rewrite He.
  pose proof (DecimalN.Unsigned.of_to n) as Hof.
  destruct (N.to_uint n) as [|d|d|d|d|d|d|d|d|d|d] eqn:Hu;
    try (rewrite <- Hof; reflexivity).
  - exfalso. now apply (to_uint_nonnil n).
  - destruct (to_uint_leading_zero n d Hu) as [-> ->]. reflexivity.
Qed.

Lemma uint_units_head (d : Decimal.uint) :
  d <> Nil -> exists c t, uint_units d = c :: t /\ 48 <= c <= 57.
Proof.
  destruct d; [congruence|..]; intros _; simpl; eexists _, _; (split; [reflexivity|lia]).
Qed.

Lemma follows_number (rest : jsstring) :
  follows rest ->
  match rest with [] => True | c :: _ => digit_of c = None end /\ ends_number rest = true.
Proof.
  destruct rest as [|c r]; simpl; [easy|].
  intros [->|[->| ->]]; split; reflexivity.
Qed.

Lemma parse_number_toString (n : Z) (rest : jsstring) :
  follows rest ->
  parse_number (Number_toString n ++ rest) = Some (n, rest).
Proof.
  intros [Hd He]%follows_number. unfold Number_toString.
  destruct (n <? 0)%Z eqn:Hn.
  - simpl. rewrite parse_nat_units by assumption.
    f_equal. f_equal. apply Z.ltb_lt in Hn. lia.
  - apply Z.ltb_ge in Hn.
    destruct (uint_units_head (N.to_uint (Z.to_N n)) (to_uint_nonnil _))
      as (c & t & Hc & Hrange).
    pose proof (parse_nat_units (Z.to_N n) rest Hd He) as Hp.
    rewrite Hc in *. simpl app in *. unfold parse_number.
    destruct (c =? 45) eqn:Hc45; [apply N.eqb_eq in Hc45; lia|].
    rewrite Hp. f_equal. f_equal. lia.
Qed.

(** ** JSON strings *)

Lemma hex_value_digit (n : N) : n < 16 -> hex_value (hex_digit n) = Some n.
Proof.
  intros Hn. unfold hex_digit, hex_value.
  destruct (N.ltb_spec n 10) as [H|H].
  - replace ((48 <=? 48 + n) && (48 + n <=? 57)) with true
      by (symmetry; apply andb_true_iff; split; apply N.leb_le; lia).
    f_equal. lia.
  - replace ((48 <=? 87 + n) && (87 + n <=? 57)) with false
      by (symmetry; apply andb_false_iff; right; apply N.leb_gt; lia).
    replace ((97 <=? 87 + n) && (87 + n <=? 102)) with true
      by (symmetry; apply andb_true_iff; split; apply N.leb_le; lia).
    f_equal. lia.
Qed.

Lemma hex4_escape (c : N) :
  c < 65536 ->
  hex4 (hex_digit (c / 4096)) (hex_digit (c / 256 mod 16))
       (hex_digit (c / 16 mod 16)) (hex_digit (c mod 16)) = Some c.
Proof.
  intros Hc. unfold hex4.
  rewrite !hex_value_digit;
    try (apply N.mod_lt; discriminate);
    try (apply N.Div0.div_lt_upper_bound; lia).
  f_equal.
  replace (c / 4096) with (c / 16 / 16 / 16) by (now rewrite !N.Div0.div_div).
  replace (c / 256) with (c / 16 / 16) by (now rewrite !N.Div0.div_div).
  pose proof (N.div_mod c 16 ltac:(discriminate)) as H0.
  pose proof (N.div_mod (c / 16) 16 ltac:(discriminate)) as H1.
  pose proof (N.div_mod (c / 16 / 16) 16 ltac:(discriminate)) as H2.
  lia.
Qed.

Lemma parse_unicode_escape (c : N) (t s rest : jsstring) :
  c < 65536 ->
  parse_units t = Some (s, rest) ->
  parse_units (unicode_escape c ++ t) = Some (c :: s, rest).
Proof.
  intros Hc Ht. unfold unicode_escape.
  cbn [app parse_units]. change (92 =? 34) with false. change (92 =? 92) with true.
  change (117 =? 117) with true. cbv iota.
  rewrite hex4_escape by exact Hc. rewrite Ht. reflexivity.
Qed.

Lemma parse_literal_unit (c : N) (t s rest : jsstring) :
  32 <= c -> c <> 34 -> c <> 92 ->
  parse_units t = Some (s, rest) ->
  parse_units (c :: t) = Some (c :: s, rest).
Proof.
  intros H32 H34 H92 Ht. cbn [parse_units].
  rewrite (proj2 (N.eqb_neq c 34) H34), (proj2 (N.eqb_neq c 92) H92).
  rewrite (proj2 (N.ltb_ge c 32) H32), Ht. reflexivity.
Qed.

Lemma parse_escape_unit (c : N) (t s rest : jsstring) :
  parse_units t = Some (s, rest) ->
  parse_units (escape_unit c ++ t) = Some (c :: s, rest).
Proof.
  intros Ht. unfold escape_unit.
  repeat match goal with
  | |- context [if ?x =? ?k then _ else _] =>
      destruct (N.eqb_spec x k) as [->|?];
        [cbn [app parse_units]; cbn; rewrite Ht; reflexivity|]
  end.
  destruct (N.ltb_spec c 32) as [H|H].
  - apply parse_unicode_escape; [lia|assumption].
  - apply parse_literal_unit; assumption.
Qed.

Lemma surrogate_bound (c : N) :
  is_high_surrogate c = true \/ is_low_surrogate c = true -> c < 65536.
Proof.
  unfold is_high_surrogate, is_low_surrogate.
  intros [[_ H]%andb_true_iff|[_ H]%andb_true_iff]; apply N.leb_le in H; lia.
Qed.

Lemma surrogate_literal (c : N) :
  is_high_surrogate c = true \/ is_low_surrogate c = true ->
  32 <= c /\ c <> 34 /\ c <> 92.
Proof.
  unfold is_high_surrogate, is_low_surrogate.
  intros [[H _]%andb_true_iff|[H _]%andb_true_iff]; apply N.leb_le in H; lia.
Qed.

Lemma quote_units_cons (c : N) (r : jsstring) :
  quote_units (c :: r) =
  if is_high_surrogate c then
    match r with
    | d :: r' =>
        if is_low_surrogate d then c :: d :: quote_units r'
        else unicode_escape c ++ quote_units r
    | [] => unicode_escape c
    end
  else if is_low_surrogate c then unicode_escape c ++ quote_units r
  else escape_unit c ++ quote_units r.
Proof. reflexivity. Qed.

Lemma parse_quote_units_pair (s : jsstring) (rest : jsstring) :
  parse_units (quote_units s ++ 34 :: rest) = Some (s, rest) /\
  forall c, parse_units (quote_units (c :: s) ++ 34 :: rest) = Some (c :: s, rest).
Proof.
  induction s as [|d s [IH1 IH2]].
  - split; [reflexivity|]. intros c. rewrite quote_units_cons.
    destruct (is_high_surrogate c) eqn:Hh.
    + apply parse_unicode_escape; [|reflexivity].
      apply surrogate_bound; now left.
    + destruct (is_low_surrogate c) eqn:Hl.
      * apply parse_unicode_escape; [|reflexivity].
        apply surrogate_bound; now right.
      * rewrite <- app_assoc. apply parse_escape_unit; reflexivity.
  - split; [apply IH2|]. intros c.
    pose proof (IH2 d) as IHd.
    rewrite (quote_units_cons c).
    destruct (is_high_surrogate c) eqn:Hh.
    + destruct (is_low_surrogate d) eqn:Hl.
      * destruct (surrogate_literal c (or_introl Hh)) as (? & ? & ?).
        destruct (surrogate_literal d (or_intror Hl)) as (? & ? & ?).
        cbn [app]. apply parse_literal_unit; try assumption.
        apply parse_literal_unit; assumption.
      * rewrite <- app_assoc. apply parse_unicode_escape; [|exact IHd].
        apply surrogate_bound; now left.
    + destruct (is_low_surrogate c) eqn:Hl; rewrite <- app_assoc.
      * apply parse_unicode_escape; [|assumption].
        apply surrogate_bound; now right.
      * apply parse_escape_unit; assumption.
Qed.

Lemma parse_units_quote (s rest : jsstring) :
  parse_units (quote_units s ++ 34 :: rest) = Some (s, rest).
Proof. apply parse_quote_units_pair. Qed.

(** ** JSON values *)

Lemma json_induction (P : json -> Prop) :
  P JNull -> (forall b, P (JBool b)) -> (forall n, P (JNum n)) ->
  (forall s, P (JStr s)) ->
  (forall l, Forall P l -> P (JArr l)) ->
  (forall m, Forall (fun kv => P (snd kv)) m -> P (JObj m)) ->
  forall j, P j.
Proof.
  intros Hnull Hbool Hnum Hstr Harr Hobj.
  fix IH 1. intros [| b | n | s | l | m].
  - exact Hnull.
  - apply Hbool.
  - apply Hnum.
  - apply Hstr.
  - apply Harr. induction l as [|j l IHl]; constructor; [apply IH|exact IHl].
  - apply Hobj. induction m as [|[k j] m IHm]; constructor; [apply IH|exact IHm].
Qed.

Lemma skip_ws_head (c : N) (r : jsstring) :
  is_json_ws c = false -> skip_ws (c :: r) = c :: r.
Proof. intros H. simpl. now rewrite H. Qed.

Lemma expect_head_ne (c d : N) (r : jsstring) : c <> d -> expect c (d :: r) = None.
Proof. intros H. simpl. now rewrite (proj2 (N.eqb_neq c d) H). Qed.

Lemma parse_value_array (f : nat) (r : jsstring) :
  parse_value (S f) (91 :: r) =
  match expect 93 (skip_ws r) with
  | Some r' => Some (JArr [], r')
  | None =>
      match parse_elements f r with
      | Some (l, r') => Some (JArr l, r')
      | None => None
      end
  end.
Proof. reflexivity. Qed.

Lemma parse_value_object (f : nat) (r : jsstring) :
  parse_value (S f) (123 :: r) =
  match expect 125 (skip_ws r) with
  | Some r' => Some (JObj [], r')
  | None =>
      match parse_members f r with
      | Some (m, r') => Some (JObj m, r')
      | None => None
      end
  end.
Proof. reflexivity. Qed.

Lemma parse_value_string (f : nat) (r : jsstring) :
  parse_value (S f) (34 :: r) =
  match parse_units r with
  | Some (str, r') => Some (JStr str, r')
  | None => None
  end.
Proof. reflexivity. Qed.

Lemma parse_value_number (f : nat) (c : N) (r : jsstring) :
  c = 45 \/ 48 <= c <= 57 ->
  parse_value (S f) (c :: r) =
  match parse_number (c :: r) with
  | Some (n, r') => Some (JNum n, r')
  | None => None
  end.
Proof.
  intros Hc. cbn [parse_value].
  assert (Hws : is_json_ws c = false).
  { unfold is_json_ws. rewrite !orb_false_iff. repeat split; apply N.eqb_neq; lia. }
  rewrite skip_ws_head by exact Hws.
  repeat match goal with
  | |- context [if c =? ?k then _ else _] =>
      rewrite (proj2 (N.eqb_neq c k)) by lia
  end.
  reflexivity.
Qed.

Lemma parse_elements_step (f : nat) (s : jsstring) :
  parse_elements (S f) s =
  match parse_value f s with
  | Some (v, r) =>
      match expect 44 (skip_ws r) with
      | Some r' =>
          match parse_elements f r' with
          | Some (vs, r'') => Some (v :: vs, r'')
          | None => None
          end
      | None =>
          match expect 93 (skip_ws r) with
          | Some r' => Some ([v], r')
          | None => None
          end
      end
  | None => None
  end.
Proof. reflexivity. Qed.

Lemma parse_members_step (f : nat) (k : jsstring) (t : jsstring) :
  parse_members (S f) (QuoteJSONString k ++ 58 :: t) =
  match parse_value f t with
  | Some (v, r3) =>
      match expect 44 (skip_ws r3) with
      | Some r4 =>
          match parse_members f r4 with
          | Some (m, r5) => Some ((k, v) :: m, r5)
          | None => None
          end
      | None =>
          match expect 125 (skip_ws r3) with
          | Some r4 => Some ([(k, v)], r4)
          | None => None
          end
      end
  | None => None
  end.
Proof.
  unfold QuoteJSONString. cbn [parse_members app].
  change (skip_ws (34 :: ?x)) with (34 :: x). cbn [expect].
  change (34 =? 34) with true. cbv iota.
  rewrite <- app_assoc. cbn [app].
  rewrite parse_units_quote. reflexivity.
Qed.

Lemma Number_toString_head (n : Z) :
  exists c t, Number_toString n = c :: t /\ (c = 45 \/ 48 <= c <= 57).
Proof.
  unfold Number_toString. destruct (n <? 0)%Z.
  - eexists _, _. split; [reflexivity|]. now left.
  - destruct (uint_units_head (N.to_uint (Z.to_N n)) (to_uint_nonnil _))
      as (c & t & -> & Hc).
    eexists _, _. split; [reflexivity|]. now right.
Qed.

Lemma stringify_head (j : json) :
  exists c t, stringify j = c :: t /\ starts_value c.
Proof.
  destruct j as [| [|] | n | s | l | m]; cbn [stringify];
    try (eexists _, _; split; [reflexivity|]; repeat split; discriminate).
  destruct (Number_toString_head n) as (c & t & -> & Hc).
  exists c, t. split; [reflexivity|].
  unfold starts_value, is_json_ws. rewrite !orb_false_iff.
  repeat split; first [lia | apply N.eqb_neq; lia].
Qed.

Lemma join_comma_tail (p : jsstring) (ps : list jsstring) (tail : jsstring) :
  join_comma (p :: ps) ++ tail =
  p ++ match ps with [] => tail | _ => 44 :: join_comma ps ++ tail end.
Proof. destruct ps; cbn [join_comma]; [reflexivity|]. now rewrite <- app_assoc. Qed.

Lemma parse_elements_text (l : list json) :
  Forall reads_back l -> l <> [] ->
  forall fuel rest,
    (list_sum (List.map (fun v => S (json_size v)) l) <= fuel)%nat ->
    parse_elements fuel (join_comma (List.map stringify l) ++ 93 :: rest) = Some (l, rest).
Proof.
  induction 1 as [|v l Hv Hl IH]; [congruence|]. intros _ fuel rest Hfuel.
  cbn [List.map list_sum fold_right] in Hfuel.
  destruct fuel as [|f]; [lia|].
  cbn [List.map]. rewrite join_comma_tail, parse_elements_step.
  destruct l as [|v' l']; cbn [List.map] in *.
  - rewrite Hv; [reflexivity|lia|simpl; auto].
  - rewrite Hv; [|lia|simpl; auto].
    rewrite skip_ws_head by reflexivity. cbn [expect].
    change (44 =? 44) with true. cbv iota.
    rewrite IH; [reflexivity|congruence|unfold list_sum in *; cbn [fold_right] in *; lia].
Qed.

Lemma parse_members_text (m : list (jsstring * json)) :
  Forall (fun kv => reads_back (snd kv)) m -> m <> [] ->
  forall fuel rest,
    (list_sum (List.map (fun kv => S (json_size (snd kv))) m) <= fuel)%nat ->
    parse_members fuel
      (join_comma (List.map (fun kv => member_text (fst kv) (stringify (snd kv))) m)
       ++ 125 :: rest) = Some (m, rest).
Proof.
  induction 1 as [|[k v] m Hv Hm IH]; [congruence|]. intros _ fuel rest Hfuel.
  cbn [List.map list_sum fold_right snd] in Hfuel.
  destruct fuel as [|f]; [lia|].
  cbn [List.map fst snd]. rewrite join_comma_tail. unfold member_text at 1.
  rewrite <- app_assoc. cbn [app]. rewrite parse_members_step.
  cbn [snd] in Hv.
  destruct m as [|kv' m']; cbn [List.map] in *.
  - rewrite Hv; [reflexivity|lia|simpl; auto].
  - rewrite Hv; [|lia|simpl; auto].
    rewrite skip_ws_head by reflexivity. cbn [expect].
    change (44 =? 44) with true. cbv iota.
    rewrite IH; [reflexivity|congruence|unfold list_sum in *; cbn [fold_right] in *; lia].
Qed.

Lemma expect_closing_value (k : N) (text : jsstring) (c : N) (t : jsstring) :
  text = c :: t -> starts_value c -> k = 93 \/ k = 125 ->
  expect k (skip_ws text) = None.
Proof.
  intros -> (Hws & H93 & H125 & _) Hk.
  rewrite skip_ws_head by exact Hws. apply expect_head_ne.
  destruct Hk as [-> | ->]; congruence.
Qed.

Lemma join_comma_head (p : jsstring) (ps : list jsstring) (tail : jsstring)
    (c : N) (t : jsstring) :
  p = c :: t -> exists t', join_comma (p :: ps) ++ tail = c :: t'.
Proof. intros ->. rewrite join_comma_tail. cbn [app]. eauto. Qed.

Lemma parse_value_stringify (j : json) : reads_back j.
Proof.
  induction j as [| b | n | s | l IH | m IH] using json_induction;
    intros fuel rest Hfuel Hrest; (destruct fuel as [|f]; [simpl in Hfuel; lia|]).
  - reflexivity.
  - destruct b; reflexivity.
  - cbn [stringify].
    destruct (Number_toString_head n) as (c & t & Hn & Hc).
    pose proof (parse_number_toString n rest Hrest) as Hp.
    rewrite Hn in *. cbn [app] in *.
    rewrite parse_value_number by exact Hc. now rewrite Hp.
  - cbn [stringify]. unfold QuoteJSONString. cbn [app].
    rewrite parse_value_string, <- app_assoc. cbn [app].
    now rewrite parse_units_quote.
  - cbn [stringify app]. rewrite parse_value_array, <- app_assoc. cbn [app].
    destruct l as [|v l]; [reflexivity|].
    destruct (stringify_head v) as (c & t & Hv & Hc).
    destruct (join_comma_head _ (List.map stringify l) (93 :: rest) c t Hv) as [t' Ht'].
    cbn [List.map].
    rewrite (expect_closing_value 93 _ c t' Ht' Hc) by now left.
    change (stringify v :: List.map stringify l) with (List.map stringify (v :: l)).
    rewrite parse_elements_text; [reflexivity|exact IH|congruence|].
    cbn [json_size] in Hfuel. lia.
  - cbn [stringify app]. rewrite parse_value_object, <- app_assoc. cbn [app].
    destruct m as [|[k v] m]; [reflexivity|].
    set (text := fun kv : jsstring * json => member_text (fst kv) (stringify (snd kv))).
    destruct (join_comma_head (text (k, v)) (List.map text m) (125 :: rest)
                34 (quote_units k ++ [34] ++ 58 :: stringify v)) as [t' Ht'].
    { unfold text, member_text, QuoteJSONString. cbn [fst snd app].
      now rewrite <- app_assoc. }
    cbn [List.map].
    rewrite (expect_closing_value 125 _ 34 t' Ht')
      by (repeat split; (reflexivity || discriminate || now right)).
    change (text (k, v) :: List.map text m) with (List.map text ((k, v) :: m)).
    subst text. rewrite parse_members_text; [reflexivity|exact IH|congruence|].
    cbn [json_size] in Hfuel. lia.
Qed.

Lemma join_comma_length {A : Type} (size : A -> nat) (text : A -> jsstring) (l : list A) :
  Forall (fun x => (size x <= length (text x))%nat) l ->
  (list_sum (List.map (fun x => S (size x)) l)
   <= S (length (join_comma (List.map text l))))%nat.
Proof.
  induction 1 as [|x l Hx Hl IH]; [simpl; lia|].
  cbn [List.map]. change (list_sum (?a :: ?r)) with (a + list_sum r)%nat.
  pose proof (join_comma_tail (text x) (List.map text l) []) as Hj.
  rewrite app_nil_r in Hj. rewrite Hj.
  destruct (List.map text l) as [|p ps] eqn:Hmap.
  - destruct l; [|discriminate]. rewrite app_nil_r. simpl. lia.
  - rewrite length_app. cbn [length]. rewrite app_nil_r. lia.
Qed.

Lemma json_size_length (j : json) : (json_size j <= length (stringify j))%nat.
Proof.
  induction j as [| b | n | s | l IH | m IH] using json_induction.
  - simpl. lia.
  - destruct b; simpl; lia.
  - destruct (Number_toString_head n) as (c & t & Hn & _).
    cbn [stringify json_size]. rewrite Hn. simpl. lia.
  - simpl. lia.
  - cbn [stringify json_size length]. rewrite length_app. cbn [length].
    pose proof (join_comma_length json_size stringify l IH). lia.
  - cbn [stringify json_size length]. rewrite length_app. cbn [length].
    pose proof (join_comma_length (fun kv => json_size (snd kv))
                  (fun kv => member_text (fst kv) (stringify (snd kv))) m) as H.
    cbn beta in H. 
    assert (Hm : Forall (fun kv : jsstring * json =>
              (json_size (snd kv) <= length (member_text (fst kv) (stringify (snd kv))))%nat) m).
    { eapply Forall_impl; [exact IH|]. intros [k v] Hkv. cbn [fst snd] in *.
      unfold member_text. rewrite length_app. cbn [length]. lia. }
    specialize (H Hm). lia.
Qed.

(** [JSON.parse] reads back what [JSON.stringify] writes. *)
Lemma JSON_parse_stringify (j : json) : JSON_parse (stringify j) = Some j.
Proof.
  unfold JSON_parse.
  pose proof (parse_value_stringify j (S (length (stringify j))) []) as H.
  rewrite app_nil_r in H. rewrite H; [reflexivity| |exact I].
  pose proof (json_size_length j). lia.
Qed.

Lemma stringify_nonempty (j : json) : stringify j <> [].
Proof. destruct (stringify_head j) as (c & t & -> & _). discriminate. Qed.

(** ** The collection as JSON *)

Lemma comment_of_to_json (c : Comment.t) : comment_of_json (comment_to_json c) = Some c.
Proof. destruct c. reflexivity. Qed.

Lemma all_some_map {A B : Type} (f : A -> B) (g : B -> option A) (l : list A) :
  (forall x, g (f x) = Some x) -> all_some g (List.map f l) = Some l.
Proof.
  intros Hgf. induction l as [|x l IH]; [reflexivity|].
  cbn [List.map all_some]. now rewrite Hgf, IH.
Qed.

Lemma event_of_to_json (e : Event.t) : event_of_json (event_to_json e) = Some e.
Proof.
  destruct e as [i t d u v c dt cs]. unfold event_to_json, event_of_json.
  cbn [Event.id Event.title Event.description Event.imageUrl Event.votes
       Event.category Event.date Event.comments].
  replace (key_is (js "id") "id" && key_is (js "title") "title"
           && key_is (js "description") "description"
           && key_is (js "imageUrl") "imageUrl" && key_is (js "votes") "votes"
           && key_is (js "category") "category" && key_is (js "date") "date"
           && key_is (js "comments") "comments") with true by (vm_compute; reflexivity).
  now rewrite (all_some_map comment_to_json comment_of_json cs comment_of_to_json).
Qed.

Lemma events_of_to_json (evs : list Event.t) :
  events_of_json (events_to_json evs) = Some evs.
Proof. apply all_some_map, event_of_to_json. Qed.

(** Parsing the text of a collection gives the collection back. *)
Lemma JSON_parse_events_stringify (evs : list Event.t) :
  JSON_parse_events (JSON_stringify evs) = Some evs.
Proof.
  unfold JSON_parse_events, JSON_stringify.
  rewrite JSON_parse_stringify. apply events_of_to_json.
Qed.

Lemma JSON_stringify_truthy (evs : list Event.t) : truthy (JSON_stringify evs) = true.
Proof.
  pose proof (stringify_nonempty (events_to_json evs)) as H.
  unfold JSON_stringify. now destruct (stringify (events_to_json evs)).
Qed.

Lemma JSON_stringify_inj (evs evs' : list Event.t) :
  JSON_stringify evs = JSON_stringify evs' -> evs = evs'.
Proof.
  intros H. apply (f_equal JSON_parse_events) in H.
  rewrite !JSON_parse_events_stringify in H. now injection H.
Qed.

(** ** Sorting *)

Section Sorting.
Context {A : Type} (comparefn : A -> A -> option Z).

Lemma sorted_insert_perm (x : A) (l : list A) :
  Permutation (sorted_insert comparefn x l) (x :: l).
Proof.
  induction l as [|y l IH]; cbn [sorted_insert]; [reflexivity|].
  destruct (SortCompare comparefn x y <=? 0)%Z; [reflexivity|].
  rewrite IH. apply Permutation_swap.
Qed.

Lemma js_sort_perm (l : list A) : Permutation (js_sort comparefn l) l.
Proof.
  induction l as [|x l IH]; cbn [js_sort]; [reflexivity|].
  rewrite sorted_insert_perm. now constructor.
Qed.

(** An element that sorts strictly before all the others and is appended
    last comes out first, the others keeping their arrangement. *)
Lemma js_sort_snoc_first (l : list A) (x : A) :
  Forall (fun y => (0 < SortCompare comparefn y x)%Z) l ->
  js_sort comparefn (l ++ [x]) = x :: js_sort comparefn l.
Proof.
  induction 1 as [|y l Hy Hl IH]; [reflexivity|].
  cbn [app js_sort]. rewrite IH. cbn [sorted_insert].
  now rewrite (proj2 (Z.leb_gt _ _) Hy).
Qed.

End Sorting.

Section SortingByKey.
Context {A : Type} (key : A -> Z).

Lemma sorted_insert_descending (x : A) (l : list A) :
  descending key l -> descending key (sorted_insert (by_key_desc key) x l).
Proof.
  unfold descending. induction 1 as [|y l Hl IH Hy]; cbn [sorted_insert].
  - repeat constructor.
  - change (SortCompare (by_key_desc key) x y) with (key y - key x)%Z.
    destruct (Z.leb_spec (key y - key x) 0) as [Hle|Hgt].
    + constructor; [now constructor|].
      constructor; [lia|]. eapply Forall_impl; [exact Hy|]. cbn. intros; lia.
    + constructor; [exact IH|].
      rewrite sorted_insert_perm. constructor; [lia|exact Hy].
Qed.

Lemma js_sort_descending (l : list A) : descending key (js_sort (by_key_desc key) l).
Proof.
  induction l as [|x l IH]; cbn [js_sort]; [constructor|].
  now apply sorted_insert_descending.
Qed.

Lemma sorted_insert_stable (v : Z) (x : A) (l : list A) :
  filter (fun a => key a = v) (sorted_insert (by_key_desc key) x l)
  = filter (fun a => key a = v) (x :: l).
Proof.
  induction l as [|y l IH]; cbn [sorted_insert]; [reflexivity|].
  change (SortCompare (by_key_desc key) x y) with (key y - key x)%Z.
  destruct (Z.leb_spec (key y - key x) 0) as [Hle|Hgt]; [reflexivity|].
  rewrite (filter_cons _ y), IH, !(filter_cons _ x), (filter_cons _ y).
  destruct (decide (key y = v)) as [Hy|Hy]; [|reflexivity].
  destruct (decide (key x = v)) as [Hx|Hx]; [lia|reflexivity].
Qed.

(** Stability: the elements of one key keep their arrangement. *)
Lemma js_sort_stable (v : Z) (l : list A) :
  filter (fun a => key a = v) (js_sort (by_key_desc key) l) = filter (fun a => key a = v) l.
Proof.
  induction l as [|x l IH]; cbn [js_sort]; [reflexivity|].
  now rewrite sorted_insert_stable, !filter_cons, IH.
Qed.

Lemma sorted_insert_keys (x : A) (l : list A) :
  List.map key (sorted_insert (by_key_desc key) x l)
  = sorted_insert (fun a b => Some (b - a)%Z) (key x) (List.map key l).
Proof.
  induction l as [|y l IH]; cbn [sorted_insert List.map]; [reflexivity|].
  change (SortCompare (by_key_desc key) x y) with (key y - key x)%Z.
  change (SortCompare _ (key x) (key y)) with (key y - key x)%Z.
  destruct (key y - key x <=? 0)%Z; [reflexivity|].
  cbn [List.map]. now rewrite IH.
Qed.

(** The keys of the sorted array are the sorted keys. *)
Lemma js_sort_keys (l : list A) :
  List.map key (js_sort (by_key_desc key) l)
  = js_sort (fun a b => Some (b - a)%Z) (List.map key l).
Proof.
  induction l as [|x l IH]; cbn [js_sort List.map]; [reflexivity|].
  now rewrite sorted_insert_keys, IH.
Qed.

(** Two descending arrangements of an array that both keep the elements
    of each key in place are the same: the result of a stable sort is
    determined by the array and the order. *)
Lemma descending_stable_unique (l1 l2 : list A) :
  descending key l1 -> descending key l2 ->
  (forall v, filter (fun a => key a = v) l1 = filter (fun a => key a = v) l2) ->
  l1 = l2.
Proof.
  unfold descending. intros H1. revert l2.
  induction H1 as [|x l1 Hl1 IH Hx]; intros l2 H2 Hf.
  - destruct l2 as [|y l2]; [reflexivity|].
    specialize (Hf (key y)). rewrite filter_cons_True in Hf by reflexivity.
    discriminate.
  - destruct H2 as [|y l2 Hl2 Hy].
    + specialize (Hf (key x)). rewrite filter_cons_True in Hf by reflexivity.
      discriminate.
    + assert (Hxy : key x = key y).
      { assert (Hin1 : x ∈ filter (fun a => key a = key x) (y :: l2)).
        { rewrite <- Hf, filter_cons_True by reflexivity. left. }
        assert (Hin2 : y ∈ filter (fun a => key a = key y) (x :: l1)).
        { rewrite Hf, filter_cons_True by reflexivity. left. }
        apply list_elem_of_filter in Hin1 as [_ Hin1].
        apply list_elem_of_filter in Hin2 as [_ Hin2].
        apply elem_of_cons in Hin1 as [->|Hin1]; [reflexivity|].
        apply elem_of_cons in Hin2 as [->|Hin2]; [reflexivity|].
        rewrite Forall_forall in Hx, Hy.
        pose proof (Hx _ Hin2). pose proof (Hy _ Hin1). lia. }
      pose proof (Hf (key x)) as Hfx.
      rewrite filter_cons_True in Hfx by reflexivity.
      rewrite filter_cons_True in Hfx by (symmetry; exact Hxy).
      injection Hfx as -> Hfx. f_equal. apply IH; [exact Hl2|].
      intros v. specialize (Hf v). rewrite !(filter_cons _ y) in Hf.
      destruct (decide (key y = v)); [now injection Hf|exact Hf].
Qed.

(** So [js_sort] gives the arrangement every stable sort gives. *)
Lemma js_sort_unique (l l' : list A) :
  descending key l' ->
  (forall v, filter (fun a => key a = v) l' = filter (fun a => key a = v) l) ->
  l' = js_sort (by_key_desc key) l.
Proof.
  intros Hd Hf. apply descending_stable_unique; [exact Hd|apply js_sort_descending|].
  intros v. now rewrite js_sort_stable.
Qed.

End SortingByKey.

Section SortingAgain.
Context {A : Type}.

Lemma sorted_insert_ext (f g : A -> A -> option Z) (x : A) (l : list A) :
  (forall y, y ∈ l -> SortCompare f x y = SortCompare g x y) ->
  sorted_insert f x l = sorted_insert g x l.
Proof.
  induction l as [|y l IH]; intros Hfg; cbn [sorted_insert]; [reflexivity|].
  rewrite (Hfg y) by left. rewrite IH; [reflexivity|].
  intros z Hz. apply Hfg. now right.
Qed.

(** Sorting reads the comparator on the elements of the array only. *)
Lemma js_sort_ext (f g : A -> A -> option Z) (l : list A) :
  (forall x y, x ∈ l -> y ∈ l -> SortCompare f x y = SortCompare g x y) ->
  js_sort f l = js_sort g l.
Proof.
  induction l as [|x l IH]; intros Hfg; cbn [js_sort]; [reflexivity|].
  rewrite IH by (intros y z Hy Hz; apply Hfg; now right).
  apply sorted_insert_ext. intros y Hy. apply Hfg; [left|right].
  now rewrite js_sort_perm in Hy.
Qed.

Lemma StronglySorted_impl (R R' : A -> A -> Prop) (l : list A) :
  (forall a b, R a b -> R' a b) -> StronglySorted R l -> StronglySorted R' l.
Proof.
  intros HR. induction 1 as [|x l Hl IH Hx]; constructor; [exact IH|].
  eapply Forall_impl; [exact Hx|]. intros b. apply HR.
Qed.

Lemma StronglySorted_take (R : A -> A -> Prop) (n : nat) (l : list A) :
  StronglySorted R l -> StronglySorted R (take n l).
Proof.
  intros Hl. revert n. induction Hl as [|x l Hl IH Hx]; intros [|n]; cbn [take];
    try constructor; [apply IH|now apply Forall_take].
Qed.

Lemma StronglySorted_filter (R : A -> A -> Prop) (P : A -> Prop)
    `{!forall a, Decision (P a)} (l : list A) :
  StronglySorted R l -> StronglySorted R (filter P l).
Proof.
  induction 1 as [|x l Hl IH Hx]; [constructor|].
  rewrite filter_cons. destruct (decide (P x)); [|exact IH].
  constructor; [exact IH|]. rewrite Forall_forall in Hx |- *.
  intros y [_ Hy]%list_elem_of_filter. now apply Hx.
Qed.

Lemma filter_filter_swap (P Q : A -> Prop) `{!forall a, Decision (P a)}
    `{!forall a, Decision (Q a)} (l : list A) :
  filter P (filter Q l) = filter Q (filter P l).
Proof. rewrite !list_filter_filter. apply list_filter_iff. tauto. Qed.

(** Sorting by a key and then leaving elements out is leaving them out
    and then sorting. *)
Lemma js_sort_filter (key : A -> Z) (P : A -> Prop) `{!forall a, Decision (P a)}
    (l : list A) :
  filter P (js_sort (by_key_desc key) l) = js_sort (by_key_desc key) (filter P l).
Proof.
  apply js_sort_unique.
  - apply StronglySorted_filter, js_sort_descending.
  - intros v. now rewrite filter_filter_swap, js_sort_stable, filter_filter_swap.
Qed.

Lemma filter_insert_out (P : A -> Prop) `{!forall a, Decision (P a)}
    (l : list A) (i : nat) (x x' : A) :
  l !! i = Some x -> ~ P x -> ~ P x' -> filter P (<[i := x']> l) = filter P l.
Proof.
  revert i. induction l as [|y l IH]; intros [|i] Hi Hx Hx'; try discriminate.
  - cbn in Hi. injection Hi as ->. change (<[0%nat := x']> (x :: l)) with (x' :: l).
    rewrite (filter_cons_False _ x l Hx). apply (filter_cons_False _ x' l Hx').
  - change (<[S i := x']> (y :: l)) with (y :: <[i := x']> l).
    rewrite !(filter_cons _ y), (IH i) by assumption. reflexivity.
Qed.

End SortingAgain.

Lemma date_asc_by_key (Date_value : jsstring -> option Z) (evs : list Event.t) :
  Forall (fun E => is_Some (Date_value (Event.date E))) evs ->
  js_sort (date_asc Date_value) evs
  = js_sort (by_key_desc (fun E => (- getTime Date_value (Event.date E))%Z)) evs.
Proof.
  intros Hvalid. apply js_sort_ext. intros x y Hx Hy.
  rewrite Forall_forall in Hvalid.
  destruct (Hvalid x Hx) as [tx Htx], (Hvalid y Hy) as [ty Hty].
  unfold SortCompare, date_asc, by_key_desc, getTime. rewrite Htx, Hty. cbn. lia.
Qed.

Lemma date_desc_by_key (Date_value : jsstring -> option Z) (cs : list Comment.t) :
  Forall (fun c => is_Some (Date_value (Comment.date c))) cs ->
  js_sort (date_desc Date_value) cs
  = js_sort (by_key_desc (fun c => getTime Date_value (Comment.date c))) cs.
Proof.
  intros Hvalid. apply js_sort_ext. intros x y Hx Hy.
  rewrite Forall_forall in Hvalid.
  destruct (Hvalid x Hx) as [tx Htx], (Hvalid y Hy) as [ty Hty].
  unfold SortCompare, date_desc, by_key_desc, getTime. rewrite Htx, Hty. reflexivity.
Qed.

(** ** The store *)

Lemma set_votes_same (e : Event.t) : Event.set_votes (Event.votes e) e = e.
Proof. now destruct e. Qed.

Lemma find_event_first (evs : list Event.t) (eventId : jsstring) (i : nat) (E : Event.t) :
  find_event eventId evs = Some (i, E) <->
  evs !! i = Some E /\ Event.id E = eventId /\
  forall j E', evs !! j = Some E' -> (j < i)%nat -> Event.id E' <> eventId.
Proof. unfold find_event. now rewrite list_find_Some. Qed.

Lemma find_event_absent (evs : list Event.t) (eventId : jsstring) :
  find_event eventId evs = None <-> forall E, E ∈ evs -> Event.id E <> eventId.
Proof. unfold find_event. rewrite list_find_None, Forall_forall. reflexivity. Qed.

Lemma find_event_distinct (evs : list Event.t) (i : nat) (E : Event.t) :
  NoDup (Event.id <$> evs) -> evs !! i = Some E ->
  find_event (Event.id E) evs = Some (i, E).
Proof.
  intros Hnd Hi. apply find_event_first. repeat split; [exact Hi|].
  intros j E' Hj Hlt Heq.
  assert (j = i); [|lia].
  apply (NoDup_lookup _ j i (Event.id E) Hnd); rewrite list_lookup_fmap.
  - now rewrite Hj, <- Heq.
  - now rewrite Hi.
Qed.

(** Replacing the object found by one of the same id does not change
    what [find] finds. *)
Lemma find_event_update (evs : list Event.t) (eventId : jsstring) (i : nat)
    (E E' : Event.t) :
  find_event eventId evs = Some (i, E) -> Event.id E' = Event.id E ->
  find_event eventId (<[i := E']> evs) = Some (i, E').
Proof.
  intros (Hi & Hid & Hfirst)%find_event_first HE'. apply find_event_first.
  repeat split.
  - apply list_lookup_insert_eq. eapply lookup_lt_Some, Hi.
  - congruence.
  - intros j E0 Hj Hlt. rewrite list_lookup_insert_ne in Hj by lia. eauto.
Qed.

Lemma ids_update (evs : list Event.t) (i : nat) (E E' : Event.t) :
  evs !! i = Some E -> Event.id E' = Event.id E ->
  Event.id <$> <[i := E']> evs = Event.id <$> evs.
Proof.
  intros Hi HE'. rewrite list_fmap_insert, HE'. apply list_insert_id.
  now rewrite list_lookup_fmap, Hi.
Qed.

Lemma saved_mirrored (st : State) : mirrored (saveEventsToLocalStorage st).
Proof. unfold mirrored. cbn [saveEventsToLocalStorage localStorage events]. apply lookup_insert_eq. Qed.

Lemma mirrored_persisted (st : State) : mirrored st -> persisted st = Some (events st).
Proof. unfold mirrored, persisted. intros ->. apply JSON_parse_events_stringify. Qed.

Lemma persisted_mirrored_events (st : State) (evs : list Event.t) :
  mirrored st -> persisted st = Some evs -> evs = events st.
Proof. intros H%mirrored_persisted. congruence. Qed.

(** ** [x++] *)

Lemma Number_increment_le (x : Z) : (x <= Number_increment x)%Z.
Proof.
  unfold Number_increment.
  destruct ((- 2 ^ 53 <=? x) && (x <? 2 ^ 53))%Z; [lia|].
  destruct ((Z.abs x <? 2 ^ 54) && (x mod 4 =? 2))%Z; lia.
Qed.

Lemma Number_increment_exact (x : Z) :
  (- 2 ^ 53 <= x < 2 ^ 53)%Z -> Number_increment x = (x + 1)%Z.
Proof.
  intros [Hlo Hhi]. unfold Number_increment.
  now rewrite (proj2 (Z.leb_le _ _) Hlo), (proj2 (Z.ltb_lt _ _) Hhi).
Qed.

(** At 2^53 the count stays where it is. *)
Lemma Number_increment_limit : Number_increment (2 ^ 53) = (2 ^ 53)%Z.
Proof. reflexivity. Qed.

Lemma Number_increment_iter (n : nat) (x : Z) :
  (- 2 ^ 53 <= x)%Z -> (x + Z.of_nat n <= 2 ^ 53)%Z ->
  Nat.iter n Number_increment x = (x + Z.of_nat n)%Z.
Proof.
  intros Hlo. induction n as [|n IH]; intros Hhi; [cbn; lia|].
  rewrite Nat.iter_succ, IH by lia. rewrite Number_increment_exact by lia. lia.
Qed.

(** ** Votes *)

Lemma handleVote_found (counters : Completion) (st : State) (eventId : jsstring)
    (i : nat) (E : Event.t) :
  find_event eventId (events st) = Some (i, E) ->
  handleVote counters eventId st =
    (match counters with
     | Normal =>
         saveEventsToLocalStorage
           (set_events (<[i := Event.incr_votes E]> (events st)) st)
     | Throw => set_events (<[i := Event.incr_votes E]> (events st)) st
     end,
     logged counters (Event.title E) (Number_increment (Event.votes E))).
Proof. intros H. unfold handleVote. rewrite H. now destruct counters. Qed.

Lemma handleVote_events (counters : Completion) (st : State) (eventId : jsstring)
    (i : nat) (E : Event.t) :
  find_event eventId (events st) = Some (i, E) ->
  events (fst (handleVote counters eventId st))
  = <[i := Event.incr_votes E]> (events st).
Proof. intros H. rewrite (handleVote_found _ _ _ _ _ H). now destruct counters. Qed.

Lemma handleVote_absent (counters : Completion) (st : State) (eventId : jsstring) :
  (forall E, E ∈ events st -> Event.id E <> eventId) ->
  handleVote counters eventId st = (st, Nothing).
Proof. intros H%find_event_absent. unfold handleVote. now rewrite H. Qed.

Lemma vote_times_found (documents : list Completion) (st : State) (i : nat)
    (E : Event.t) :
  find_event (Event.id E) (events st) = Some (i, E) ->
  exists stn,
    vote_times documents (Event.id E) st =
      (stn, imap (fun k c => logged c (Event.title E)
                               (Nat.iter (S k) Number_increment (Event.votes E)))
              documents)
    /\ events stn
       = <[i := Event.set_votes
                  (Nat.iter (length documents) Number_increment (Event.votes E)) E]>
           (events st)
    /\ (last documents = Some Normal -> mirrored stn).
Proof.
  revert st E. induction documents as [|c cs IH]; intros st E Hfind.
  - exists st. split; [reflexivity|]. split; [|discriminate].
    cbn [length]. change (Nat.iter 0 Number_increment (Event.votes E)) with (Event.votes E).
    rewrite set_votes_same. symmetry. apply list_insert_id.
    now apply find_event_first in Hfind.
  - cbn [vote_times]. rewrite (handleVote_found c st _ i E Hfind).
    set (st1 := match c with Normal => _ | Throw => _ end).
    assert (Hevs1 : events st1 = <[i := Event.incr_votes E]> (events st))
      by (subst st1; now destruct c).
    assert (Hfind1 : find_event (Event.id (Event.incr_votes E)) (events st1)
                     = Some (i, Event.incr_votes E)).
    { rewrite Hevs1. apply (find_event_update _ _ _ E); [exact Hfind|reflexivity]. }
    destruct (IH st1 (Event.incr_votes E) Hfind1) as (stn & Hrun & Hevs & Hmir).
    change (Event.id (Event.incr_votes E)) with (Event.id E) in Hrun.
    rewrite Hrun. exists stn. split; [|split].
    + f_equal. cbn [imap]. f_equal. apply imap_ext. intros k c' _. cbn [compose].
      change (Event.title (Event.incr_votes E)) with (Event.title E).
      change (Event.votes (Event.incr_votes E))
        with (Number_increment (Event.votes E)).
      now rewrite <- Nat.iter_succ_r.
    + rewrite Hevs, Hevs1, list_insert_insert_eq.
      change (Event.votes (Event.incr_votes E))
        with (Number_increment (Event.votes E)).
      now rewrite <- Nat.iter_succ_r.
    + intros Hlast. destruct cs as [|c' cs'].
      * cbn in Hlast, Hrun. injection Hlast as ->. injection Hrun as <-.
        apply saved_mirrored.
      * apply Hmir. exact Hlast.
Qed.


(** A page that starts on a storage whose mirror holds a collection has
    that collection in memory. *)
Lemma DOMContentLoaded_mirrored (st : State) :
  mirrored st ->
  DOMContentLoaded (localStorage st) = Some (mkState (events st) (localStorage st) None).
Proof.
  unfold mirrored, DOMContentLoaded. intros ->.
  now rewrite JSON_stringify_truthy, JSON_parse_events_stringify.
Qed.

(** ** The mirror between operations *)

(** The identifiers of the collection do not change when an event is
    replaced by one of the same id, and stay pairwise distinct when an
    event with an unused id is appended. *)
Lemma ids_append (evs : list Event.t) (e : Event.t) :
  NoDup (Event.id <$> evs) ->
  (forall E, E ∈ evs -> Event.id E <> Event.id e) ->
  NoDup (Event.id <$> (evs ++ [e])).
Proof.
  intros Hnd Hfresh. rewrite fmap_app. apply NoDup_app. split; [exact Hnd|].
  split; [|apply NoDup_singleton].
  intros x Hx Hx'. apply list_elem_of_fmap in Hx as (E & -> & HE).
  apply list_elem_of_singleton in Hx'. exact (Hfresh E HE Hx').
Qed.

(** A page that has started holds in memory what its mirror holds. *)
Lemma DOMContentLoaded_consistent (ls : gmap string jsstring) (st : State) :
  DOMContentLoaded ls = Some st -> persisted st = Some (events st).
Proof.
  unfold DOMContentLoaded.
  destruct (ls !! "events"%string) as [text|] eqn:Hls.
  - destruct (truthy text).
    + destruct (JSON_parse_events text) as [evs|] eqn:Hparse; [|discriminate].
      intros [= <-]. unfold persisted. cbn [set_events localStorage events].
      now rewrite Hls.
    + intros [= <-]. apply mirrored_persisted, saved_mirrored.
  - intros [= <-]. apply mirrored_persisted, saved_mirrored.
Qed.

(** Every operation that is not interrupted keeps it so. *)
Lemma step_consistent (Date_value : jsstring -> option Z) (op : Operation) (st : State) :
  interrupts op = false ->
  persisted st = Some (events st) ->
  persisted (fst (step Date_value op st)) = Some (events (fst (step Date_value op st))).
Proof.
  intros Hop Hst.
  destruct op as [[|] eventId | eventId | a t d | form now fragment];
    try discriminate Hop; cbn [step].
  - unfold handleVote.
    destruct (find_event eventId (events st)) as [[i E]|]; [|exact Hst].
    apply mirrored_persisted, saved_mirrored.
  - unfold loadEventDetail.
    destruct (find_event eventId (events st)) as [[i E]|]; exact Hst.
  - unfold commentSubmit.
    destruct (detail st) as [i|]; [|exact Hst].
    destruct (events st !! i) as [E|]; [|exact Hst].
    destruct (truthy (trim a) && truthy (trim t)); [|exact Hst].
    apply mirrored_persisted, saved_mirrored.
  - unfold createEventSubmit.
    destruct (formIsValid (fields form)); [|exact Hst].
    apply mirrored_persisted, saved_mirrored.
Qed.

Lemma run_consistent (Date_value : jsstring -> option Z) (ops : list Operation)
    (ls : gmap string jsstring) (st : State) :
  Forall (fun op => interrupts op = false) ops ->
  DOMContentLoaded ls = Some st ->
  persisted (run Date_value ops st) = Some (events (run Date_value ops st)).
Proof.
  intros Hops Hstart%DOMContentLoaded_consistent. revert st Hstart.
  induction Hops as [|op ops Hop Hops IH]; intros st Hst; [exact Hst|].
  cbn [run]. now apply IH, step_consistent.
Qed.

(** * The claims of the specification *)

(** C1. After a vote the mirror can be behind the collection in memory.
    Take a page started on a storage whose mirror holds an event with a
    line break in its id. A vote for the event counts in memory, and the
    selector [handleVote] then builds from the id is not valid, so the
    handler throws before it saves: the array [events] has changed and
    the mirror still holds the array of before. *)
Theorem C1_interrupted_vote_leaves_mirror_stale :
  exists st,
    DOMContentLoaded two_lines_stored = Some st
    /\ find_event (Event.id two_lines) (events st) = Some (0%nat, two_lines)
    /\ snd (handleVote Throw (Event.id two_lines) st)
       = VoteInterrupted (Event.title two_lines) 4
    /\ events (fst (handleVote Throw (Event.id two_lines) st))
       = [Event.set_votes 4 two_lines]
    /\ persisted (fst (handleVote Throw (Event.id two_lines) st)) = Some [two_lines]
    /\ persisted (fst (handleVote Throw (Event.id two_lines) st))
       <> Some (events (fst (handleVote Throw (Event.id two_lines) st))).
Proof.
  eexists. split; [vm_compute; reflexivity|].
  split; [vm_compute; reflexivity|].
  split; [vm_compute; reflexivity|].
  split; [vm_compute; reflexivity|].
  split; [vm_compute; reflexivity|].
  apply (proj1 (bool_decide_eq_false _)). vm_compute. reflexivity.
Qed.

(** C2 (amended). For an event [E] that is the first of the collection
    to carry its id and whose votes are an integer from -2^53 to
    2^53 - 1, a vote for [E.id] adds exactly 1 to the votes of [E],
    changes nothing else and logs the new count; when the update of the
    counters in the document returns, the whole collection is then
    written to the mirror. Votes in a row each add exactly 1, the k-th
    one logging the count [votes + k], as long as the count stays within
    2^53. *)
Theorem C2_vote_adds_one (st : State) (i : nat) (E : Event.t) :
  find_event (Event.id E) (events st) = Some (i, E) ->
  (- 2 ^ 53 <= Event.votes E)%Z ->
  ((Event.votes E < 2 ^ 53)%Z ->
   forall counters, exists st',
     handleVote counters (Event.id E) st
       = (st', logged counters (Event.title E) (Event.votes E + 1))
     /\ events st' = <[i := Event.set_votes (Event.votes E + 1) E]> (events st)
     /\ (counters = Normal ->
         localStorage st' !! "events"%string = Some (JSON_stringify (events st'))
         /\ persisted st' = Some (events st')))
  /\ forall documents : list Completion,
       (Event.votes E + Z.of_nat (length documents) <= 2 ^ 53)%Z ->
       exists stn,
         vote_times documents (Event.id E) st
           = (stn, imap (fun k c => logged c (Event.title E)
                                      (Event.votes E + Z.of_nat k + 1)) documents)
         /\ events stn
           = <[i := Event.set_votes (Event.votes E + Z.of_nat (length documents)) E]>
               (events st)
         /\ (last documents = Some Normal ->
             localStorage stn !! "events"%string = Some (JSON_stringify (events stn))
             /\ persisted stn = Some (events stn)).
Proof.
  intros Hfind Hlo. split.
  - intros Hhi counters. eexists.
    split; [rewrite (handleVote_found counters _ _ _ _ Hfind),
              Number_increment_exact by lia; reflexivity|].
    split.
    + unfold Event.incr_votes. rewrite Number_increment_exact by lia.
      now destruct counters.
    + intros ->. split; [apply saved_mirrored|apply mirrored_persisted, saved_mirrored].
  - intros documents Hhi.
    destruct (vote_times_found documents st i E Hfind) as (stn & Hrun & Hevs & Hmir).
    exists stn. split; [|split].
    + rewrite Hrun. f_equal. apply imap_ext. intros k c Hk.
      apply lookup_lt_Some in Hk. f_equal.
      rewrite Number_increment_iter by lia. lia.
    + rewrite Hevs. now rewrite Number_increment_iter by lia.
    + intros Hlast. split; [now apply Hmir|now apply mirrored_persisted, Hmir].
Qed.

Lemma truthy_nonempty (s : jsstring) : truthy s = true <-> s <> [].
Proof. destruct s; simpl; split; congruence. Qed.

(** C3 (amended). For an event that [find] finds, adding a comment whose
    author or text is empty once trimmed is refused with the validation
    message and changes neither the collection nor the mirror. Otherwise
    the comment built from the trimmed author and text and the reading of
    the clock is appended to the end of the comments of the event, the
    collection is written to the mirror, and the detail view lists the
    comments of the event: a rearrangement of them that, when the date of
    every comment can be read, is sorted most recent first, comments of
    the same instant in the order they were added. The new comment is
    listed first provided its date is strictly later than the date of
    every comment already there. *)
Theorem C3_add_comment (Date_value : jsstring -> option Z) (st : State)
    (eventId : jsstring) (i : nat) (E : Event.t)
    (authorValue textValue isoNow : jsstring) :
  find_event eventId (events st) = Some (i, E) ->
  (trim authorValue = [] \/ trim textValue = [] ->
     AddComment Date_value eventId authorValue textValue isoNow st
     = (set_detail (Some i) st,
        CommentRejected (js "Por favor, completa tu nombre y comentario.")))
  /\ (trim authorValue <> [] -> trim textValue <> [] ->
      exists st' listed,
        AddComment Date_value eventId authorValue textValue isoNow st
        = (st', CommentAdded (js "Comentario añadido exitosamente!") listed)
        /\ events st'
           = <[i := Event.push_comment
                      (Comment.mk (trim authorValue) (trim textValue) isoNow) E]>
               (events st)
        /\ localStorage st' !! "events"%string = Some (JSON_stringify (events st'))
        /\ persisted st' = Some (events st')
        /\ CommentsOf Date_value eventId st' = Some listed
        /\ Permutation listed
             (Event.comments E
              ++ [Comment.mk (trim authorValue) (trim textValue) isoNow])
        /\ (Forall (fun c => is_Some (Date_value (Comment.date c)))
              (Event.comments E
               ++ [Comment.mk (trim authorValue) (trim textValue) isoNow]) ->
            descending (fun c => getTime Date_value (Comment.date c)) listed
            /\ forall t,
                 filter (fun c => getTime Date_value (Comment.date c) = t) listed
                 = filter (fun c => getTime Date_value (Comment.date c) = t)
                     (Event.comments E
                      ++ [Comment.mk (trim authorValue) (trim textValue) isoNow]))
        /\ (Forall (fun c => exists t0 t,
                      Date_value (Comment.date c) = Some t0
                      /\ Date_value isoNow = Some t /\ (t0 < t)%Z)
                   (Event.comments E) ->
            listed
            = Comment.mk (trim authorValue) (trim textValue) isoNow
              :: renderComments Date_value (Event.comments E))).
Proof.
  intros Hfind. pose proof Hfind as (Hi & Hid & _)%find_event_first.
  unfold AddComment, loadEventDetail. rewrite Hfind.
  cbn [detail set_detail]. unfold commentSubmit.
  cbn [detail set_detail events]. rewrite Hi. split.
  - intros Hempty.
    replace (truthy (trim authorValue) && truthy (trim textValue)) with false;
      [reflexivity|].
    symmetry. apply andb_false_iff.
    destruct Hempty as [-> | ->]; [left|right]; reflexivity.
  - intros Ha Ht.
    rewrite (proj2 (truthy_nonempty _) Ha), (proj2 (truthy_nonempty _) Ht).
    cbn [andb]. eexists _, _. split; [reflexivity|].
    split; [reflexivity|].
    split; [apply saved_mirrored|].
    split; [apply mirrored_persisted, saved_mirrored|].
    split.
    { unfold CommentsOf. cbn [saveEventsToLocalStorage set_events events].
      now rewrite (find_event_update _ _ _ E (Event.push_comment _ E) Hfind eq_refl). }
    cbn [Event.push_comment Event.comments]. unfold renderComments.
    split; [apply js_sort_perm|]. split.
    + intros Hvalid. rewrite (date_desc_by_key _ _ Hvalid).
      split; [apply js_sort_descending|intros t; apply js_sort_stable].
    + intros Hlater. apply js_sort_snoc_first.
      eapply Forall_impl; [exact Hlater|].
      intros c (t0 & t & Hc & Hnow & Hlt). unfold SortCompare, date_desc.
      cbn [Comment.date]. rewrite Hnow, Hc. lia.
Qed.

(** ** Validation *)

Lemma field_errors_filter (fs : list Field) :
  field_errors fs = error_entry <$> filter rejected fs.
Proof.
  induction fs as [|f fs IH]; [reflexivity|].
  cbn [field_errors].
  destruct (validateField (input f) (rules f)) as [[|] m] eqn:Hv.
  - rewrite filter_cons_False; [exact IH|]. unfold rejected. now rewrite Hv.
  - rewrite filter_cons_True by (unfold rejected; now rewrite Hv).
    rewrite fmap_cons. unfold error_entry at 1. rewrite Hv. cbn [snd].
    f_equal. exact IH.
Qed.

Lemma formIsValid_false (fs : list Field) :
  formIsValid fs = false <-> exists f, f ∈ fs /\ rejected f.
Proof.
  unfold formIsValid, rejected. induction fs as [|f fs IH]; cbn [forallb].
  - split; [discriminate|]. intros (f & Hf & _). inversion Hf.
  - rewrite andb_false_iff, IH. split.
    + intros [Hf|(g & Hg & Hrej)]; [exists f|exists g]; split; auto; now constructor.
    + intros (g & Hg & Hrej). apply elem_of_cons in Hg as [->|Hg]; eauto.
Qed.

Lemma formIsValid_true (fs : list Field) :
  formIsValid fs = true <->
  forall f, f ∈ fs -> fst (validateField (input f) (rules f)) = true.
Proof.
  unfold formIsValid. rewrite forallb_forall. split; intros H f Hf; apply H.
  - now apply list_elem_of_In.
  - now apply list_elem_of_In.
Qed.

Lemma error_entry_elem (fs : list Field) (f : Field) :
  f ∈ fs -> rejected f -> error_entry f ∈ field_errors fs.
Proof.
  intros Hf Hrej. rewrite field_errors_filter. apply list_elem_of_fmap_2.
  now apply list_elem_of_filter.
Qed.

Lemma validateField_empty (el : InputElement) (min max : option nat) :
  trim (value el) = [] ->
  validateField el (mkRules true min max) = (false, js "Este campo es obligatorio.").
Proof. intros H. unfold validateField. cbn [required]. now rewrite H. Qed.

Lemma validateField_short (el : InputElement) (req : bool) (m : nat) (max : option nat) :
  (0 < length (trim (value el)) < m)%nat ->
  validateField el (mkRules req (Some m) max)
  = (false, js "Debe tener al menos " ++ Number_toString (Z.of_nat m)
            ++ js " caracteres.").
Proof.
  intros [Hpos Hlt]. unfold validateField. cbn [required minLength maxLength].
  destruct (trim (value el)) as [|c v] eqn:Hv; [simpl in Hpos; lia|].
  rewrite bool_decide_eq_false_2 by discriminate. rewrite andb_false_r.
  destruct m as [|m]; [lia|]. cbn [shorter_than].
  now rewrite (proj2 (Nat.ltb_lt _ _) Hlt).
Qed.

Lemma validateField_long (el : InputElement) (req : bool) (min : option nat) (m : nat) :
  (m < length (trim (value el)))%nat -> (0 < m)%nat ->
  shorter_than min (trim (value el)) = false ->
  fst (validateField el (mkRules req min (Some m))) = false.
Proof.
  intros Hlong Hm Hmin. unfold validateField. cbn [required minLength maxLength].
  destruct (trim (value el)) as [|c v] eqn:Hv; [simpl in Hlong; lia|].
  rewrite bool_decide_eq_false_2 by discriminate. rewrite andb_false_r, Hmin.
  destruct m as [|m]; [lia|]. cbn [longer_than].
  now rewrite (proj2 (Nat.ltb_lt _ _) Hlong).
Qed.

(** A control that is no email, url or date input and whose trimmed
    value is not empty and respects the bounds is valid. *)
Lemma validateField_plain (el : InputElement) (req : bool) (min max : option nat) :
  type el <> js "email" -> type el <> js "url" -> type el <> js "date" ->
  trim (value el) <> [] ->
  shorter_than min (trim (value el)) = false ->
  longer_than max (trim (value el)) = false ->
  validateField el (mkRules req min max) = (true, []).
Proof.
  intros He Hu Hd Hne Hmin Hmax. unfold validateField.
  cbn [required minLength maxLength].
  rewrite (bool_decide_eq_false_2 _ Hne), andb_false_r, Hmin, Hmax.
  rewrite (bool_decide_eq_false_2 _ He), (bool_decide_eq_false_2 _ Hu),
    (bool_decide_eq_false_2 _ Hd).
  cbn [andb negb]. now rewrite andb_false_r.
Qed.

Lemma text_is_plain (t : jsstring) :
  t = js "text" -> t <> js "email" /\ t <> js "url" /\ t <> js "date".
Proof. intros ->. repeat split; intros H; vm_compute in H; discriminate H. Qed.

Lemma required_rejected (nm : jsstring) (el : InputElement) (min max : option nat) :
  trim (value el) = [] -> rejected (mkField nm el (mkRules true min max)).
Proof.
  intros H. unfold rejected. cbn [input rules].
  now rewrite validateField_empty.
Qed.

Lemma short_rejected (nm : jsstring) (el : InputElement) (m : nat) (max : option nat) :
  (length (trim (value el)) < m)%nat ->
  rejected (mkField nm el (mkRules true (Some m) max)).
Proof.
  intros H. destruct (trim (value el)) as [|c v] eqn:Hv.
  - now apply required_rejected.
  - unfold rejected. cbn [input rules]. rewrite validateField_short; [reflexivity|].
    rewrite Hv. simpl in *. lia.
Qed.

Lemma title_rejected (form : CreateEventForm) :
  (length (data_title (eventData form)) < 5)%nat
  \/ (100 < length (data_title (eventData form)))%nat ->
  rejected (mkField (js "title") (event_title form)
              (mkRules true (Some 5%nat) (Some 100%nat))).
Proof.
  cbn [eventData data_title]. intros [Hshort|Hlong].
  - now apply short_rejected.
  - unfold rejected. cbn [input rules]. apply validateField_long; [exact Hlong|lia|].
    cbn [shorter_than]. apply Nat.ltb_ge. lia.
Qed.

Lemma title_accepted (form : CreateEventForm) :
  (5 <= length (data_title (eventData form)) <= 100)%nat ->
  type (event_title form) = js "text" ->
  validateField (event_title form) (mkRules true (Some 5%nat) (Some 100%nat))
  = (true, []).
Proof.
  cbn [eventData data_title]. intros [Hmin Hmax] Htype.
  destruct (text_is_plain _ Htype) as (He & Hu & Hd).
  apply validateField_plain; try assumption.
  - intros H. rewrite H in Hmin. simpl in Hmin. lia.
  - cbn [shorter_than]. apply Nat.ltb_ge. lia.
  - cbn [longer_than]. apply Nat.ltb_ge. lia.
Qed.

(** C4. Submitting the creation form with a required field that fails
    its rule (title of trimmed length below 5 or above 100, description
    of trimmed length below 20, empty date, empty category) creates
    nothing and reports the validation error together with one message
    for each field that [validateField] rejects, all five fields having
    been validated. A title of trimmed length 4 gets the message of the
    minimum length 5; a title of trimmed length 5 to 100 in a text input
    gets no message. *)
Theorem C4_create_event_validation (form : CreateEventForm) (now : Z)
    (fragment : jsstring) (st : State) :
  (length (data_title (eventData form)) < 5)%nat
  \/ (100 < length (data_title (eventData form)))%nat
  \/ (length (data_description (eventData form)) < 20)%nat
  \/ data_date (eventData form) = []
  \/ data_category (eventData form) = [] ->
  createEventSubmit form now fragment st
  = (st, FormRejected (js "Por favor, corrige los errores en el formulario.")
           (field_errors (fields form)))
  /\ field_errors (fields form) = error_entry <$> filter rejected (fields form)
  /\ ((length (data_title (eventData form)) < 5)%nat
      \/ (100 < length (data_title (eventData form)))%nat ->
      exists m, (js "title", m) ∈ field_errors (fields form))
  /\ (length (data_title (eventData form)) = 4%nat ->
      (js "title", js "Debe tener al menos 5 caracteres.")
        ∈ field_errors (fields form))
  /\ ((5 <= length (data_title (eventData form)) <= 100)%nat ->
      type (event_title form) = js "text" ->
      forall m, (js "title", m) ∉ field_errors (fields form))
  /\ ((length (data_description (eventData form)) < 20)%nat ->
      exists m, (js "description", m) ∈ field_errors (fields form))
  /\ (data_date (eventData form) = [] ->
      (js "date", js "Este campo es obligatorio.") ∈ field_errors (fields form))
  /\ (data_category (eventData form) = [] ->
      (js "category", js "Este campo es obligatorio.") ∈ field_errors (fields form)).
Proof.
  intros Hfail.
  set (ft := mkField (js "title") (event_title form)
               (mkRules true (Some 5%nat) (Some 100%nat))).
  set (fd := mkField (js "description") (event_description form)
               (mkRules true (Some 20%nat) None)).
  set (fdate := mkField (js "date") (event_date form) (mkRules true None None)).
  set (fcat := mkField (js "category") (event_category form) (mkRules true None None)).
  assert (Hft : ft ∈ fields form) by (unfold fields; repeat constructor).
  assert (Hfd : fd ∈ fields form) by (unfold fields; repeat constructor).
  assert (Hfdate : fdate ∈ fields form) by (unfold fields; repeat constructor).
  assert (Hfcat : fcat ∈ fields form) by (unfold fields; repeat constructor).
  assert (Htitle : (length (data_title (eventData form)) < 5)%nat
                   \/ (100 < length (data_title (eventData form)))%nat ->
                   rejected ft) by apply title_rejected.
  assert (Hdesc : (length (data_description (eventData form)) < 20)%nat -> rejected fd)
    by (intros H; now apply short_rejected).
  assert (Hdate : data_date (eventData form) = [] -> rejected fdate)
    by (intros H; now apply required_rejected).
  assert (Hcat : data_category (eventData form) = [] -> rejected fcat)
    by (intros H; now apply required_rejected).
  split; [|split; [apply field_errors_filter|]].
  { unfold createEventSubmit.
    replace (formIsValid (fields form)) with false; [reflexivity|].
    symmetry. apply formIsValid_false.
    destruct Hfail as [H|[H|[H|[H|H]]]]; eauto 6. }
  repeat split.
  - intros H. eexists. apply (error_entry_elem _ ft Hft (Htitle H)).
  - intros H4.
    assert (Hrej : rejected ft) by (apply Htitle; lia).
    pose proof (error_entry_elem _ ft Hft Hrej) as Hin.
    unfold error_entry in Hin. cbn [name input rules ft] in Hin.
    rewrite validateField_short in Hin; [|cbn [eventData data_title] in H4; lia].
    cbn [snd] in Hin. exact Hin.
  - intros Hlen Htype m Hin. rewrite field_errors_filter in Hin.
    apply list_elem_of_fmap in Hin as (f & Hf & Hin).
    apply list_elem_of_filter in Hin as [Hrej Hin].
    apply (f_equal fst) in Hf. cbn [fst error_entry] in Hf.
    unfold fields in Hin.
    repeat (apply elem_of_cons in Hin as [-> | Hin]);
      try (apply elem_of_nil in Hin; contradiction);
      try (cbn [name] in Hf; vm_compute in Hf; discriminate Hf).
    unfold rejected in Hrej. cbn [input rules] in Hrej.
    rewrite title_accepted in Hrej by assumption. discriminate.
  - intros H. eexists. apply (error_entry_elem _ fd Hfd (Hdesc H)).
  - intros H.
    pose proof (error_entry_elem _ fdate Hfdate (Hdate H)) as Hin.
    unfold error_entry in Hin. cbn [name input rules fdate] in Hin.
    rewrite validateField_empty in Hin by exact H. cbn [snd] in Hin. exact Hin.
  - intros H.
    pose proof (error_entry_elem _ fcat Hfcat (Hcat H)) as Hin.
    unfold error_entry in Hin. cbn [name input rules fcat] in Hin.
    rewrite validateField_empty in Hin by exact H. cbn [snd] in Hin. exact Hin.
Qed.

(** C5. When every field passes validation, submitting the creation form
    builds the event with the generated id [event-<Date.now()>-<fragment>],
    the trimmed field values, the placeholder image path when the image
    field is empty once trimmed, 0 votes and no comments; the event is
    appended to the collection, the collection is written to the mirror,
    and the event is the one reported. The ids of the collection stay
    pairwise distinct whenever the generated id is not yet in use. *)
Theorem C5_create_event (form : CreateEventForm) (now : Z) (fragment : jsstring)
    (st : State) :
  (forall f, f ∈ fields form -> fst (validateField (input f) (rules f)) = true) ->
  exists st' e,
    createEventSubmit form now fragment st
    = (st', EventCreated (js "Evento creado exitosamente!") e)
    /\ Event.id e = js "event-" ++ Number_toString now ++ js "-" ++ fragment
    /\ Event.title e = trim (value (event_title form))
    /\ Event.description e = trim (value (event_description form))
    /\ Event.imageUrl e
       = (if decide (trim (value (event_image form)) = [])
          then js "public/images/event-placeholder.jpg"
          else trim (value (event_image form)))
    /\ Event.votes e = 0%Z
    /\ Event.category e = trim (value (event_category form))
    /\ Event.date e = trim (value (event_date form))
    /\ Event.comments e = []
    /\ events st' = events st ++ [e]
    /\ localStorage st' !! "events"%string = Some (JSON_stringify (events st'))
    /\ persisted st' = Some (events st')
    /\ (NoDup (Event.id <$> events st) ->
        (forall E, E ∈ events st -> Event.id E <> Event.id e) ->
        NoDup (Event.id <$> events st')).
Proof.
  intros Hvalid%formIsValid_true. unfold createEventSubmit. rewrite Hvalid.
  eexists _, _. split; [reflexivity|].
  repeat split; try reflexivity.
  - cbn [newEvent Event.imageUrl eventData data_imageUrl].
    destruct (trim (value (event_image form))); reflexivity.
  - apply saved_mirrored.
  - apply mirrored_persisted, saved_mirrored.
  - apply ids_append; assumption.
Qed.

(** C6. The ranking lists the events by votes, highest first, and leaves
    the page state as it is: the list is a rearrangement of the
    collection, events with equal votes keep the order they have in the
    collection, and a collection with votes 120, 85, 95, 60, 75 is listed
    with votes 120, 95, 85, 75, 60. *)
Theorem C6_ranked_view (st : State) :
  fst (loadRanking st) = st
  /\ Permutation (snd (loadRanking st)) (events st)
  /\ StronglySorted (fun a b => (Event.votes b <= Event.votes a)%Z)
       (snd (loadRanking st))
  /\ (forall v, filter (fun e => Event.votes e = v) (snd (loadRanking st))
                = filter (fun e => Event.votes e = v) (events st))
  /\ (List.map Event.votes (events st) = [120; 85; 95; 60; 75]%Z ->
      List.map Event.votes (snd (loadRanking st)) = [120; 95; 85; 75; 60]%Z).
Proof.
  cbn [loadRanking fst snd]. unfold sortedEvents.
  change votes_desc with (by_key_desc Event.votes).
  split; [reflexivity|].
  split; [apply js_sort_perm|].
  split; [apply js_sort_descending|].
  split; [intros v; apply js_sort_stable|].
  intros Hvotes. rewrite js_sort_keys, Hvotes. reflexivity.
Qed.

(** C7. Parsing the JSON text of a collection gives the collection back;
    so a page that starts on the storage left by a successful event
    creation has in memory the collection the creating page had, the new
    event included. *)
Theorem C7_persist_reload (form : CreateEventForm) (now : Z) (fragment : jsstring)
    (st : State) :
  (forall f, f ∈ fields form -> fst (validateField (input f) (rules f)) = true) ->
  (forall evs, JSON_parse_events (JSON_stringify evs) = Some evs)
  /\ exists reloaded,
       DOMContentLoaded (localStorage (fst (createEventSubmit form now fragment st)))
       = Some reloaded
       /\ events reloaded = events (fst (createEventSubmit form now fragment st))
       /\ events reloaded = events st ++ [newEvent form now fragment].
Proof.
  intros Hvalid%formIsValid_true.
  split; [apply JSON_parse_events_stringify|].
  unfold createEventSubmit. rewrite Hvalid. cbn [fst].
  eexists. split; [apply DOMContentLoaded_mirrored, saved_mirrored|].
  split; reflexivity.
Qed.

(** C8. In a collection with pairwise distinct ids, looking an event up
    by its id finds that very event, at its own place in the array; an id
    that no event carries is not found. *)
Theorem C8_find_by_id (evs : list Event.t) :
  NoDup (Event.id <$> evs) ->
  (forall i E, evs !! i = Some E -> find_event (Event.id E) evs = Some (i, E))
  /\ (forall eventId, (forall E, E ∈ evs -> Event.id E <> eventId) ->
        find_event eventId evs = None).
Proof.
  intros Hnd. split.
  - intros i E. now apply find_event_distinct.
  - intros eventId. apply find_event_absent.
Qed.

(** C9. A vote for an id that no event of the collection carries changes
    nothing: the page state, hence the array in memory and the mirror, is
    the one before, and nothing is reported. *)
Theorem C9_vote_unknown_id_is_noop (counters : Completion) (st : State)
    (eventId : jsstring) :
  (forall E, E ∈ events st -> Event.id E <> eventId) ->
  handleVote counters eventId st = (st, Nothing)
  /\ events (fst (handleVote counters eventId st)) = events st
  /\ localStorage (fst (handleVote counters eventId st)) = localStorage st.
Proof. intros H. now rewrite (handleVote_absent counters st eventId H). Qed.

(** C10 (amended). A vote for an id that no event carries does nothing
    and reports nothing: no not-found error is raised. A comment can only
    be submitted from the detail view of an event; for an id that no
    event carries the detail view shows the not-found message, holds no
    comment form, and the collection and the mirror stay as they are. *)
Theorem C10_unknown_id (Date_value : jsstring -> option Z) (st : State)
    (eventId : jsstring) :
  (forall E, E ∈ events st -> Event.id E <> eventId) ->
  (forall counters, handleVote counters eventId st = (st, Nothing))
  /\ forall authorValue textValue isoNow,
       AddComment Date_value eventId authorValue textValue isoNow st
       = (set_detail None st,
          EventNotFound
            (js "Evento no encontrado. Por favor, vuelve a la página de explorar.")).
Proof.
  intros Habsent. split; [intros counters; now apply handleVote_absent|].
  intros a t d. apply find_event_absent in Habsent.
  unfold AddComment, loadEventDetail. now rewrite Habsent.
Qed.

(** * Instances *)

(** C2, as the specification states it, fails, on two counts. The one
    event of [saturated] has 2^53 votes, and a vote for its id leaves it
    with 2^53 votes. The third event of [twins] carries the id ["1"], and
    a vote for that id leaves it as it is: the vote goes to the event
    before it that carries the same id. *)
Lemma C2_vote_adds_one_counterexample :
  (events saturated !! 0%nat = Some (Event.set_votes (2 ^ 53) seed_1)
   /\ Event.id (Event.set_votes (2 ^ 53) seed_1) = js "1"
   /\ Event.votes <$> events (fst (handleVote Normal (js "1") saturated)) !! 0%nat
      = Some (2 ^ 53)%Z
   /\ Event.votes <$> events (fst (handleVote Normal (js "1") saturated)) !! 0%nat
      <> Some (2 ^ 53 + 1)%Z)
  /\ (events twins !! 2%nat = Some (Event.set_votes 7 seed_1)
      /\ Event.id (Event.set_votes 7 seed_1) = js "1"
      /\ events (fst (handleVote Normal (js "1") twins)) !! 2%nat
         = Some (Event.set_votes 7 seed_1)
      /\ Event.votes <$> events (fst (handleVote Normal (js "1") twins)) !! 2%nat
         <> Some (7 + 1)%Z).
Proof.
  split.
  - split; [reflexivity|]. split; [reflexivity|].
    split; [vm_compute; reflexivity|].
    apply (proj1 (bool_decide_eq_false _)). vm_compute. reflexivity.
  - split; [reflexivity|]. split; [reflexivity|].
    split; [vm_compute; reflexivity|].
    apply (proj1 (bool_decide_eq_false _)). vm_compute. reflexivity.
Qed.

Lemma C2_vote_adds_one_witness :
  find_event (Event.id seed_3) (events first_visit) = Some (2%nat, seed_3)
  /\ (- 2 ^ 53 <= Event.votes seed_3)%Z
  /\ (Event.votes seed_3 + Z.of_nat (length [Normal; Throw; Normal]) <= 2 ^ 53)%Z
  /\ exists stn,
       vote_times [Normal; Throw; Normal] (js "3") first_visit
       = (stn, [ VoteRegistered (Event.title seed_3) 96;
                 VoteInterrupted (Event.title seed_3) 97;
                 VoteRegistered (Event.title seed_3) 98 ])
       /\ events stn = [seed_1; seed_2; Event.set_votes 98 seed_3; seed_4; seed_5]
       /\ persisted stn = Some (events stn).
Proof.
  assert (Hfind : find_event (Event.id seed_3) (events first_visit)
                  = Some (2%nat, seed_3)) by (vm_compute; reflexivity).
  assert (Hlo : (- 2 ^ 53 <= Event.votes seed_3)%Z) by (vm_compute; discriminate).
  assert (Hhi : (Event.votes seed_3 + Z.of_nat (length [Normal; Throw; Normal])
                 <= 2 ^ 53)%Z) by (vm_compute; discriminate).
  split; [exact Hfind|]. split; [exact Hlo|]. split; [exact Hhi|].
  destruct (proj2 (C2_vote_adds_one first_visit 2 seed_3 Hfind Hlo)
              [Normal; Throw; Normal] Hhi) as (stn & Hrun & Hevs & Hsaved).
  exists stn. split; [exact Hrun|]. split; [exact Hevs|].
  exact (proj2 (Hsaved eq_refl)).
Defined.

(** C3, as the specification states it, fails: a comment added to the
    first seed event when the clock reads 10:30 on 18 May 2025 is
    accepted and listed second, after the seed comment of 11:30. *)
Lemma C3_new_comment_first_counterexample :
  exists st',
    AddComment iso_time (js "1") (js "Ann") (js "Hi") half_past_ten first_visit
    = (st', CommentAdded (js "Comentario añadido exitosamente!")
              [ Comment.mk (js "Maria Gomez")
                  (js "Espero que haya sesiones sobre IA ética.")
                  (js "2025-05-18T11:30:00Z");
                Comment.mk (js "Ann") (js "Hi") half_past_ten;
                Comment.mk (js "Juan Perez")
                  (js "¡Muy emocionado por esta conferencia!")
                  (js "2025-05-18T10:00:00Z") ])
    /\ CommentsOf iso_time (js "1") st'
       = Some [ Comment.mk (js "Maria Gomez")
                  (js "Espero que haya sesiones sobre IA ética.")
                  (js "2025-05-18T11:30:00Z");
                Comment.mk (js "Ann") (js "Hi") half_past_ten;
                Comment.mk (js "Juan Perez")
                  (js "¡Muy emocionado por esta conferencia!")
                  (js "2025-05-18T10:00:00Z") ]
    /\ head (default [] (CommentsOf iso_time (js "1") st'))
       <> Some (Comment.mk (js "Ann") (js "Hi") half_past_ten).
Proof.
  eexists. split; [vm_compute; reflexivity|].
  split; [vm_compute; reflexivity|].
  apply (proj1 (bool_decide_eq_false _)). vm_compute. reflexivity.
Qed.

Lemma C3_add_comment_witness :
  find_event (js "1") (events first_visit) = Some (0%nat, seed_1)
  /\ CommentsOf iso_time (js "1")
       (fst (AddComment iso_time (js "1") (js " Ann ") (js "Hi") noon first_visit))
     = Some (Comment.mk (js "Ann") (js "Hi") noon
             :: renderComments iso_time (Event.comments seed_1)).
Proof.
  assert (Hfind : find_event (js "1") (events first_visit) = Some (0%nat, seed_1))
    by (vm_compute; reflexivity).
  split; [exact Hfind|].
  destruct (C3_add_comment iso_time first_visit (js "1") 0 seed_1
              (js " Ann ") (js "Hi") noon Hfind) as [_ Hadd].
  destruct Hadd as (st' & listed & Hrun & _ & _ & _ & Hlist & _ & _ & Hfirst).
  - vm_compute. discriminate.
  - vm_compute. discriminate.
  - rewrite Hrun. cbn [fst]. rewrite Hlist, Hfirst; [reflexivity|].
    constructor; [|constructor; [|constructor]];
      (eexists _, _; split; [vm_compute; reflexivity|];
       split; [vm_compute; reflexivity|reflexivity]).
Defined.

Lemma C4_create_event_validation_witness :
  (length (data_title (eventData incomplete_form)) < 5)%nat
  /\ createEventSubmit incomplete_form 1748779200000 (js "k3j2h1a") first_visit
     = (first_visit,
        FormRejected (js "Por favor, corrige los errores en el formulario.")
          [ (js "title", js "Debe tener al menos 5 caracteres.");
            (js "description", js "Debe tener al menos 20 caracteres.");
            (js "date", js "Este campo es obligatorio.");
            (js "category", js "Este campo es obligatorio.") ]).
Proof.
  assert (H : (length (data_title (eventData incomplete_form)) < 5)%nat)
    by (vm_compute; lia).
  split; [exact H|].
  rewrite (proj1 (C4_create_event_validation incomplete_form 1748779200000
                    (js "k3j2h1a") first_visit (or_introl H))).
  f_equal. all: vm_compute; reflexivity.
Defined.

Lemma complete_form_valid :
  forall f, f ∈ fields complete_form ->
    fst (validateField (input f) (rules f)) = true.
Proof. apply formIsValid_true. vm_compute. reflexivity. Qed.

Lemma C5_create_event_witness :
  (forall f, f ∈ fields complete_form ->
     fst (validateField (input f) (rules f)) = true)
  /\ exists st' e,
       createEventSubmit complete_form 1748779200000 (js "k3j2h1a") first_visit
       = (st', EventCreated (js "Evento creado exitosamente!") e)
       /\ Event.id e = js "event-1748779200000-k3j2h1a"
       /\ Event.title e = js "Feria"
       /\ Event.imageUrl e = js "public/images/event-placeholder.jpg"
       /\ events st' = seed_events ++ [e].
Proof.
  split; [exact complete_form_valid|].
  destruct (C5_create_event complete_form 1748779200000 (js "k3j2h1a") first_visit
              complete_form_valid)
    as (st' & e & Hrun & Hid & Htitle & _ & Himage & _ & _ & _ & _ & Hevs & _ & _ & _).
  exists st', e. split; [exact Hrun|].
  split; [rewrite Hid; vm_compute; reflexivity|].
  split; [rewrite Htitle; vm_compute; reflexivity|].
  split; [rewrite Himage; vm_compute; reflexivity|exact Hevs].
Defined.

Lemma C6_ranked_view_witness :
  List.map Event.votes (events first_visit) = [120; 85; 95; 60; 75]%Z
  /\ List.map Event.votes (snd (loadRanking first_visit)) = [120; 95; 85; 75; 60]%Z
  /\ fst (loadRanking first_visit) = first_visit.
Proof.
  assert (H : List.map Event.votes (events first_visit) = [120; 85; 95; 60; 75]%Z)
    by reflexivity.
  destruct (C6_ranked_view first_visit) as (Hst & _ & _ & _ & Horder).
  split; [exact H|]. split; [exact (Horder H)|exact Hst].
Defined.

Lemma C7_persist_reload_witness :
  (forall f, f ∈ fields complete_form ->
     fst (validateField (input f) (rules f)) = true)
  /\ exists reloaded,
       DOMContentLoaded
         (localStorage
            (fst (createEventSubmit complete_form 1748779200000 (js "k3j2h1a")
                    first_visit)))
       = Some reloaded
       /\ events reloaded
          = seed_events ++ [newEvent complete_form 1748779200000 (js "k3j2h1a")].
Proof.
  split; [exact complete_form_valid|].
  destruct (C7_persist_reload complete_form 1748779200000 (js "k3j2h1a") first_visit
              complete_form_valid) as [_ (reloaded & Hload & _ & Hevs)].
  exists reloaded. split; [exact Hload|exact Hevs].
Defined.

Lemma C8_find_by_id_witness :
  NoDup (Event.id <$> seed_events)
  /\ find_event (Event.id seed_3) seed_events = Some (2%nat, seed_3)
  /\ find_event (js "nonexistent-id") seed_events = None.
Proof.
  assert (Hnd : NoDup (Event.id <$> seed_events)).
  { refine (bool_decide_unpack _ _). vm_compute. exact I. }
  destruct (C8_find_by_id seed_events Hnd) as [Hfound Habsent].
  split; [exact Hnd|]. split; [exact (Hfound 2%nat seed_3 eq_refl)|].
  apply Habsent. apply find_event_absent. vm_compute. reflexivity.
Defined.

Lemma seed_has_no_such_id :
  forall E, E ∈ events first_visit -> Event.id E <> js "nonexistent-id".
Proof. apply find_event_absent. vm_compute. reflexivity. Qed.

Lemma C9_vote_unknown_id_is_noop_witness :
  (forall E, E ∈ events first_visit -> Event.id E <> js "nonexistent-id")
  /\ handleVote Normal (js "nonexistent-id") first_visit = (first_visit, Nothing)
  /\ handleVote Throw (js "nonexistent-id") first_visit = (first_visit, Nothing).
Proof.
  split; [exact seed_has_no_such_id|]. split.
  - exact (proj1 (C9_vote_unknown_id_is_noop Normal first_visit (js "nonexistent-id")
                    seed_has_no_such_id)).
  - exact (proj1 (C9_vote_unknown_id_is_noop Throw first_visit (js "nonexistent-id")
                    seed_has_no_such_id)).
Defined.

(** C10, as the specification states it, fails: a vote for the id
    ["nonexistent-id"], which no seed event carries, reports nothing; in
    particular it reports no not-found error. *)
Lemma C10_vote_not_found_counterexample :
  (forall E, E ∈ events first_visit -> Event.id E <> js "nonexistent-id")
  /\ (forall counters,
        handleVote counters (js "nonexistent-id") first_visit = (first_visit, Nothing))
  /\ forall counters message,
       snd (handleVote counters (js "nonexistent-id") first_visit)
       <> EventNotFound message.
Proof.
  split; [exact seed_has_no_such_id|].
  assert (H : forall counters,
            handleVote counters (js "nonexistent-id") first_visit
            = (first_visit, Nothing))
    by (intros counters; apply handleVote_absent, seed_has_no_such_id).
  split; [exact H|]. intros counters message. rewrite H. discriminate.
Qed.

Lemma C10_unknown_id_witness :
  (forall E, E ∈ events first_visit -> Event.id E <> js "nonexistent-id")
  /\ (forall counters,
        handleVote counters (js "nonexistent-id") first_visit = (first_visit, Nothing))
  /\ events (fst (AddComment iso_time (js "nonexistent-id") (js "Ann") (js "Hi")
                    noon first_visit))
     = events first_visit.
Proof.
  destruct (C10_unknown_id iso_time first_visit (js "nonexistent-id")
              seed_has_no_such_id) as [Hvote Hcomment].
  split; [exact seed_has_no_such_id|]. split; [exact Hvote|].
  rewrite Hcomment. reflexivity.
Defined.

(** * Further properties of the code *)

(** ** Start-up, storage and runs *)









Lemma step_other_keys (Date_value : jsstring -> option Z) (op : Operation)
    (st : State) (k : string) :
  k <> "events"%string ->
  localStorage (fst (step Date_value op st)) !! k = localStorage st !! k.
Proof.
  intros Hk.
  assert (Hsave : forall s, localStorage (saveEventsToLocalStorage s) !! k
                            = localStorage s !! k).
  { intros s. cbn [saveEventsToLocalStorage localStorage].
    now apply lookup_insert_ne. }
  destruct op as [counters eventId | eventId | a t d | form now fragment]; cbn [step].
  - unfold handleVote.
    destruct (find_event eventId (events st)) as [[i E]|]; [|reflexivity].
    destruct counters; [|reflexivity]. cbn [loadRanking fst]. now rewrite Hsave.
  - unfold loadEventDetail.
    destruct (find_event eventId (events st)) as [[i E]|]; reflexivity.
  - unfold commentSubmit.
    destruct (detail st) as [i|]; [|reflexivity].
    destruct (events st !! i) as [E|]; [|reflexivity].
    destruct (truthy (trim a) && truthy (trim t)); [|reflexivity].
    cbn [fst]. now rewrite Hsave.
  - unfold createEventSubmit.
    destruct (formIsValid (fields form)); [|reflexivity].
    cbn [fst]. now rewrite Hsave.
Qed.

Lemma run_other_keys (Date_value : jsstring -> option Z)
    (ops : list Operation) (st : State) (k : string) :
  k <> "events"%string ->
  localStorage (run Date_value ops st) !! k = localStorage st !! k.
Proof.
  intros Hk. revert st. induction ops as [|op ops IH]; intros st; [reflexivity|].
  cbn [run]. rewrite IH. now apply step_other_keys.
Qed.

(** X2. The handlers of the store write no key of the storage but
    ['events']: after any run every other key holds what it held. *)
Theorem X2_only_events_key_written (Date_value : jsstring -> option Z)
    (ops : list Operation) (st : State) (k : string) :
  k <> "events"%string ->
  localStorage (run Date_value ops st) !! k = localStorage st !! k.
Proof. apply run_other_keys. Qed.

(** X3. The dark-mode preference survives a reload and is independent of
    the store: after a click on the toggle a page started on the storage
    is in the mode the click chose, a second click brings the first mode
    back, the click changes neither the collection nor what the mirror
    holds, and no run of store operations changes the mode a reload
    restores. *)
Theorem X3_dark_mode_preference (Date_value : jsstring -> option Z)
    (dark : bool) (st : State) (ops : list Operation) :
  fst (darkModeToggle dark st) = negb dark
  /\ startsDark (localStorage (snd (darkModeToggle dark st))) = negb dark
  /\ startsDark (localStorage
                   (snd (darkModeToggle (fst (darkModeToggle dark st))
                           (snd (darkModeToggle dark st))))) = dark
  /\ events (snd (darkModeToggle dark st)) = events st
  /\ localStorage (snd (darkModeToggle dark st)) !! "events"%string
     = localStorage st !! "events"%string
  /\ persisted (snd (darkModeToggle dark st)) = persisted st
  /\ startsDark (localStorage (run Date_value ops st)) = startsDark (localStorage st).
Proof.
  assert (Hne : js "false" <> js "true") by (intros H; vm_compute in H; discriminate H).
  assert (Hget : forall d s, startsDark (localStorage (snd (darkModeToggle d s))) = negb d).
  { intros d s. unfold startsDark, darkModeToggle. cbn [snd localStorage].
    rewrite lookup_insert_eq. destruct d; cbn [negb].
    - apply bool_decide_eq_false_2. intros H. apply Hne. congruence.
    - now apply bool_decide_eq_true_2. }
  split; [reflexivity|]. split; [apply Hget|].
  split; [rewrite Hget; cbn [darkModeToggle fst]; apply negb_involutive|].
  split; [reflexivity|].
  assert (Hev : localStorage (snd (darkModeToggle dark st)) !! "events"%string
                = localStorage st !! "events"%string).
  { cbn [darkModeToggle snd localStorage]. now apply lookup_insert_ne. }
  split; [exact Hev|]. split; [unfold persisted; now rewrite Hev|].
  unfold startsDark. now rewrite run_other_keys.
Qed.

(** ** What an operation does to the collection *)

Lemma find_event_insert (evs : list Event.t) (a : jsstring) (j : nat)
    (Ej E' : Event.t) :
  evs !! j = Some Ej -> Event.id E' = Event.id Ej ->
  find_event a (<[j := E']> evs)
  = (fun p : nat * Event.t => (fst p, if decide (fst p = j) then E' else snd p))
      <$> find_event a evs.
Proof.
  intros Hj Hid.
  assert (Hlt : (j < length evs)%nat) by (eapply lookup_lt_Some, Hj).
  assert (Hlook : forall k y, <[j := E']> evs !! k = Some y ->
            exists y0, evs !! k = Some y0 /\ Event.id y = Event.id y0
                       /\ y = if decide (k = j) then E' else y0).
  { intros k y Hk. destruct (decide (k = j)) as [->|Hne].
    - rewrite list_lookup_insert_eq in Hk by exact Hlt. injection Hk as <-. eauto.
    - rewrite list_lookup_insert_ne in Hk by congruence. eauto. }
  destruct (find_event a evs) as [[i E]|] eqn:Hfind; cbn [fmap option_fmap option_map fst snd].
  - apply find_event_first in Hfind as (Hi & Ha & Hfirst).
    apply find_event_first. repeat split.
    + destruct (decide (i = j)) as [->|Hne].
      * now apply list_lookup_insert_eq.
      * now rewrite list_lookup_insert_ne by congruence.
    + destruct (decide (i = j)) as [->|Hne]; [congruence|exact Ha].
    + intros k y Hk Hki. destruct (Hlook k y Hk) as (y0 & Hy0 & -> & _). eauto.
  - apply find_event_absent. intros y Hy.
    apply list_elem_of_lookup in Hy as [k Hk].
    destruct (Hlook k y Hk) as (y0 & Hy0 & -> & _).
    eapply find_event_absent; [exact Hfind|]. eapply list_elem_of_lookup_2, Hy0.
Qed.

Lemma find_event_append (evs : list Event.t) (a : jsstring) (i : nat)
    (E e : Event.t) :
  find_event a evs = Some (i, E) -> find_event a (evs ++ [e]) = Some (i, E).
Proof. unfold find_event. apply list_find_app_l. Qed.

Lemma step_cases (Date_value : jsstring -> option Z) (op : Operation) (st : State) :
  (events (fst (step Date_value op st)) = events st
   /\ localStorage (fst (step Date_value op st)) = localStorage st)
  \/ (exists i E, events st !! i = Some E
        /\ events (fst (step Date_value op st))
           = <[i := Event.incr_votes E]> (events st))
  \/ (exists i E c, events st !! i = Some E
        /\ events (fst (step Date_value op st))
           = <[i := Event.push_comment c E]> (events st))
  \/ (exists e, events (fst (step Date_value op st)) = events st ++ [e]
        /\ Event.votes e = 0%Z /\ Event.comments e = []).
Proof.
  destruct op as [counters eventId | eventId | a t d | form now fragment]; cbn [step].
  - unfold handleVote.
    destruct (find_event eventId (events st)) as [[i E]|] eqn:Hfind; [|now left].
    right; left. exists i, E. split; [|now destruct counters].
    now apply find_event_first in Hfind.
  - unfold loadEventDetail.
    destruct (find_event eventId (events st)) as [[i E]|]; now left.
  - unfold commentSubmit.
    destruct (detail st) as [i|]; [|now left].
    destruct (events st !! i) as [E|] eqn:Hi; [|now left].
    destruct (truthy (trim a) && truthy (trim t)); [|now left].
    right; right; left. now exists i, E, (Comment.mk (trim a) (trim t) d).
  - unfold createEventSubmit.
    destruct (formIsValid (fields form)); [|now left].
    right; right; right. now exists (newEvent form now fragment).
Qed.

Lemma grown_refl (E : Event.t) : grown E E.
Proof. unfold grown. repeat split; try reflexivity. Qed.

Lemma grown_trans (E1 E2 E3 : Event.t) : grown E1 E2 -> grown E2 E3 -> grown E1 E3.
Proof.
  unfold grown. intros (? & ? & ? & ? & ? & ? & ? & ?) (? & ? & ? & ? & ? & ? & ? & ?).
  repeat split; try congruence; [lia|]. etransitivity; eassumption.
Qed.

Lemma step_grown (Date_value : jsstring -> option Z) (op : Operation) (st : State)
    (i : nat) (E : Event.t) :
  events st !! i = Some E ->
  exists E', events (fst (step Date_value op st)) !! i = Some E' /\ grown E E'.
Proof.
  intros Hi.
  assert (Hlt : (i < length (events st))%nat) by (eapply lookup_lt_Some, Hi).
  destruct (step_cases Date_value op st)
    as [[-> _]|[(j & Ej & Hj & ->)|[(j & Ej & c & Hj & ->)|(e & -> & _)]]].
  - exists E. split; [exact Hi|apply grown_refl].
  - destruct (decide (i = j)) as [->|Hne].
    + rewrite list_lookup_insert_eq by exact Hlt. eexists. split; [reflexivity|].
      assert (Ej = E) as -> by congruence.
      unfold grown. cbn [Event.incr_votes Event.set_votes Event.id Event.title
                         Event.description Event.imageUrl Event.votes
                         Event.category Event.date Event.comments].
      repeat split; try reflexivity. apply Number_increment_le.
    + rewrite list_lookup_insert_ne by congruence.
      exists E. split; [exact Hi|apply grown_refl].
  - destruct (decide (i = j)) as [->|Hne].
    + rewrite list_lookup_insert_eq by exact Hlt. eexists. split; [reflexivity|].
      assert (Ej = E) as -> by congruence.
      unfold grown. cbn. repeat split; try reflexivity. now apply prefix_app_r.
    + rewrite list_lookup_insert_ne by congruence.
      exists E. split; [exact Hi|apply grown_refl].
  - rewrite lookup_app_l by exact Hlt.
    exists E. split; [exact Hi|apply grown_refl].
Qed.

Lemma run_grown (Date_value : jsstring -> option Z) (ops : list Operation)
    (st : State) (i : nat) (E : Event.t) :
  events st !! i = Some E ->
  exists E', events (run Date_value ops st) !! i = Some E' /\ grown E E'.
Proof.
  revert st E. induction ops as [|op ops IH]; intros st E Hi.
  - exists E. split; [exact Hi|apply grown_refl].
  - cbn [run]. destruct (step_grown Date_value op st i E Hi) as (E1 & Hi1 & Hg1).
    destruct (IH _ _ Hi1) as (E' & Hi' & Hg'). exists E'. split; [exact Hi'|].
    eapply grown_trans; eassumption.
Qed.

(** X4. The store is append-only. Over any run of operations an event
    stays at its place in the collection with its id, title, description,
    image, category and date; its votes never go down; its comments are
    only appended to. *)
Theorem X4_append_only (Date_value : jsstring -> option Z) (ops : list Operation)
    (st : State) (i : nat) (E : Event.t) :
  events st !! i = Some E ->
  exists E', events (run Date_value ops st) !! i = Some E'
    /\ Event.id E' = Event.id E
    /\ Event.title E' = Event.title E
    /\ Event.description E' = Event.description E
    /\ Event.imageUrl E' = Event.imageUrl E
    /\ Event.category E' = Event.category E
    /\ Event.date E' = Event.date E
    /\ (Event.votes E <= Event.votes E')%Z
    /\ exists added, Event.comments E' = Event.comments E ++ added.
Proof.
  intros Hi. destruct (run_grown Date_value ops st i E Hi) as (E' & Hi' & Hg).
  exists E'. split; [exact Hi'|].
  destruct Hg as (? & ? & ? & ? & ? & ? & ? & Hprefix). auto 10.
Qed.

(** X5. What a handler reports tells what it did. After a comment or an
    event creation is confirmed, the collection has changed and the
    mirror holds its text. After a vote is logged by a handler that went
    on to its end, an event of the collection has the count that was
    logged, the count it had incremented, and the mirror holds the text
    of the collection; after a vote is logged by a handler that then
    threw, the event has that count and the storage is as it was. After
    any other outcome (nothing, not found, a detail view, a refused
    comment, a refused form) the collection and the storage are those
    before. *)
Theorem X5_feedback_matches_effect (Date_value : jsstring -> option Z)
    (op : Operation) (st : State) :
  match snd (step Date_value op st) with
  | CommentAdded _ _ | EventCreated _ _ =>
      events (fst (step Date_value op st)) <> events st
      /\ localStorage (fst (step Date_value op st)) !! "events"%string
         = Some (JSON_stringify (events (fst (step Date_value op st))))
  | VoteRegistered _ votes =>
      (exists i E, events st !! i = Some E
         /\ votes = Number_increment (Event.votes E)
         /\ events (fst (step Date_value op st))
            = <[i := Event.set_votes votes E]> (events st))
      /\ localStorage (fst (step Date_value op st)) !! "events"%string
         = Some (JSON_stringify (events (fst (step Date_value op st))))
  | VoteInterrupted _ votes =>
      (exists i E, events st !! i = Some E
         /\ votes = Number_increment (Event.votes E)
         /\ events (fst (step Date_value op st))
            = <[i := Event.set_votes votes E]> (events st))
      /\ localStorage (fst (step Date_value op st)) = localStorage st
  | _ =>
      events (fst (step Date_value op st)) = events st
      /\ localStorage (fst (step Date_value op st)) = localStorage st
  end.
Proof.
  assert (Hins : forall (evs : list Event.t) i E E',
            evs !! i = Some E -> E' <> E -> <[i := E']> evs <> evs).
  { intros evs i E E' Hi Hne Heq. apply Hne.
    assert (H : <[i := E']> evs !! i = Some E').
    { apply list_lookup_insert_eq. eapply lookup_lt_Some, Hi. }
    rewrite Heq in H. congruence. }
  destruct op as [counters eventId | eventId | a t d | form now fragment]; cbn [step].
  - unfold handleVote.
    destruct (find_event eventId (events st)) as [[i E]|] eqn:Hfind; [|now split].
    apply find_event_first in Hfind as (Hi & _).
    destruct counters; cbn [loadRanking fst snd].
    + split; [now exists i, E|apply saved_mirrored].
    + split; [now exists i, E|reflexivity].
  - unfold loadEventDetail.
    destruct (find_event eventId (events st)) as [[i E]|]; now split.
  - unfold commentSubmit.
    destruct (detail st) as [i|]; [|now split].
    destruct (events st !! i) as [E|] eqn:Hi; [|now split].
    destruct (truthy (trim a) && truthy (trim t)); [|now split].
    cbn [fst snd]. split; [|apply saved_mirrored].
    cbn [saveEventsToLocalStorage set_events events].
    apply (Hins _ _ _ _ Hi). intros Heq.
    apply (f_equal (fun e => length (Event.comments e))) in Heq.
    cbn in Heq. rewrite length_app in Heq. cbn in Heq. lia.
  - unfold createEventSubmit.
    destruct (formIsValid (fields form)); [|now split].
    cbn [fst snd]. split; [|apply saved_mirrored].
    cbn [saveEventsToLocalStorage set_events events].
    intros Heq. apply (f_equal length) in Heq. rewrite length_app in Heq.
    cbn in Heq. lia.
Qed.

(** X6. A vote goes to the first event of the array that carries the id,
    also when several events carry it. After a row of votes for an id
    that [find] finds at position [i], whether or not the handlers went
    on to save, the event at [i] has been incremented once for each
    vote, which adds exactly 1 each time as long as the count is an
    integer from -2^53 on that stays within 2^53; every other event, of
    the same id or not, is as it was; and no event before [i] carries the
    id. *)
Theorem X6_votes_go_to_first_match (documents : list Completion) (st : State)
    (eventId : jsstring) (i : nat) (E : Event.t) :
  find_event eventId (events st) = Some (i, E) ->
  events (fst (vote_times documents eventId st))
  = <[i := Event.set_votes
             (Nat.iter (length documents) Number_increment (Event.votes E)) E]>
      (events st)
  /\ ((- 2 ^ 53 <= Event.votes E)%Z ->
      (Event.votes E + Z.of_nat (length documents) <= 2 ^ 53)%Z ->
      Nat.iter (length documents) Number_increment (Event.votes E)
      = (Event.votes E + Z.of_nat (length documents))%Z)
  /\ (forall j, j <> i ->
        events (fst (vote_times documents eventId st)) !! j = events st !! j)
  /\ (forall j E', (j < i)%nat -> events st !! j = Some E' -> Event.id E' <> eventId).
Proof.
  intros Hfind. pose proof Hfind as (Hi & <- & Hfirst)%find_event_first.
  destruct (vote_times_found documents st i E Hfind) as (stn & Hrun & Hevs & _).
  rewrite Hrun. cbn [fst]. split; [exact Hevs|].
  split; [apply Number_increment_iter|]. split.
  - intros j Hj. rewrite Hevs. now apply list_lookup_insert_ne.
  - intros j E' Hlt Hj. eauto.
Qed.

Lemma handleVote_none (counters : Completion) (st : State) (eventId : jsstring) :
  find_event eventId (events st) = None ->
  handleVote counters eventId st = (st, Nothing).
Proof. intros H. unfold handleVote. now rewrite H. Qed.

(** X7. Votes commute in memory: two votes cast in either order, however
    the update of the counters ends at each, leave the same collection.
    When both handlers go on to their end, the two orders leave the same
    page, storage included. *)
Theorem X7_votes_commute (ca cb : Completion) (a b : jsstring) (st : State) :
  events (fst (handleVote ca a (fst (handleVote cb b st))))
  = events (fst (handleVote cb b (fst (handleVote ca a st))))
  /\ (ca = Normal -> cb = Normal ->
      fst (handleVote ca a (fst (handleVote cb b st)))
      = fst (handleVote cb b (fst (handleVote ca a st)))).
Proof.
  assert (Hsave : forall evs1 evs2 s,
            saveEventsToLocalStorage
              (set_events evs2 (saveEventsToLocalStorage (set_events evs1 s)))
            = saveEventsToLocalStorage (set_events evs2 s)).
  { intros evs1 evs2 s. unfold saveEventsToLocalStorage, set_events.
    cbn [events localStorage detail]. now rewrite insert_insert_eq. }
  assert (Hvoted : forall c s id k E,
            find_event id (events s) = Some (k, E) ->
            events (fst (handleVote c id s)) = <[k := Event.incr_votes E]> (events s)
            /\ (c = Normal ->
                fst (handleVote c id s)
                = saveEventsToLocalStorage
                    (set_events (<[k := Event.incr_votes E]> (events s)) s))).
  { intros c s id k E H. rewrite (handleVote_found c s id k E H).
    destruct c; split; try reflexivity; discriminate. }
  assert (Hnone : forall c s id,
            find_event id (events s) = None -> fst (handleVote c id s) = s).
  { intros c s id H. now rewrite (handleVote_none c s id H). }
  destruct (find_event a (events st)) as [[i Ea]|] eqn:Ha;
    destruct (find_event b (events st)) as [[j Eb]|] eqn:Hb.
  - pose proof Ha as (Hi & _)%find_event_first.
    pose proof Hb as (Hj & _)%find_event_first.
    destruct (Hvoted cb st b j Eb Hb) as [Hb1 Hb2].
    destruct (Hvoted ca st a i Ea Ha) as [Ha1 Ha2].
    assert (Ha' : find_event a (events (fst (handleVote cb b st)))
                  = Some (i, if decide (i = j) then Event.incr_votes Eb else Ea)).
    { rewrite Hb1, (find_event_insert _ a j Eb (Event.incr_votes Eb) Hj eq_refl), Ha.
      reflexivity. }
    assert (Hb' : find_event b (events (fst (handleVote ca a st)))
                  = Some (j, if decide (j = i) then Event.incr_votes Ea else Eb)).
    { rewrite Ha1, (find_event_insert _ b i Ea (Event.incr_votes Ea) Hi eq_refl), Hb.
      reflexivity. }
    destruct (Hvoted ca _ a i _ Ha') as [Ha3 Ha4].
    destruct (Hvoted cb _ b j _ Hb') as [Hb3 Hb4].
    assert (Hcomm : <[i := Event.incr_votes
                              (if decide (i = j) then Event.incr_votes Eb else Ea)]>
                      (<[j := Event.incr_votes Eb]> (events st))
                    = <[j := Event.incr_votes
                                (if decide (j = i) then Event.incr_votes Ea else Eb)]>
                        (<[i := Event.incr_votes Ea]> (events st))).
    { destruct (decide (i = j)) as [->|Hne].
      - rewrite decide_True by reflexivity.
        assert (Ea = Eb) as -> by congruence. reflexivity.
      - rewrite decide_False by congruence.
        now rewrite list_insert_insert_ne by congruence. }
    split.
    + now rewrite Ha3, Hb3, Hb1, Ha1.
    + intros Hca Hcb. rewrite (Ha4 Hca), (Hb4 Hcb), (Hb2 Hcb), (Ha2 Hca).
      cbn [saveEventsToLocalStorage set_events events]. rewrite !Hsave.
      now rewrite Hcomm.
  - pose proof Ha as (Hi & _)%find_event_first.
    rewrite (Hnone cb st b Hb).
    assert (Hb' : find_event b (events (fst (handleVote ca a st))) = None).
    { rewrite (proj1 (Hvoted ca st a i Ea Ha)),
        (find_event_insert _ b i Ea (Event.incr_votes Ea) Hi eq_refl), Hb.
      reflexivity. }
    rewrite (Hnone cb _ b Hb'). now split.
  - pose proof Hb as (Hj & _)%find_event_first.
    rewrite (Hnone ca st a Ha).
    assert (Ha' : find_event a (events (fst (handleVote cb b st))) = None).
    { rewrite (proj1 (Hvoted cb st b j Eb Hb)),
        (find_event_insert _ a j Eb (Event.incr_votes Eb) Hj eq_refl), Ha.
      reflexivity. }
    rewrite (Hnone ca _ a Ha'). now split.
  - rewrite (Hnone cb st b Hb), (Hnone ca st a Ha), (Hnone cb st b Hb). now split.
Qed.

(** ** The detail view across operations *)

Lemma step_bound_to (Date_value : jsstring -> option Z) (op : Operation)
    (eventId : jsstring) (i : nat) (st : State) :
  opens_detail op = false ->
  bound_to eventId i st -> bound_to eventId i (fst (step Date_value op st)).
Proof.
  intros Hop [Hd (E & Hfind)].
  destruct op as [counters x | x | a t d | form now fragment]; [|discriminate| |]; cbn [step].
  - unfold handleVote.
    destruct (find_event x (events st)) as [[j Ej]|] eqn:Hx; [|now split; eauto].
    apply find_event_first in Hx as (Hj & _).
    destruct counters; cbn [loadRanking fst]; (split; [exact Hd|]);
      cbn [saveEventsToLocalStorage set_events events];
      rewrite (find_event_insert _ eventId j Ej (Event.incr_votes Ej) Hj eq_refl),
        Hfind; eauto.
  - unfold commentSubmit. rewrite Hd.
    pose proof Hfind as (Hi & _)%find_event_first. rewrite Hi.
    destruct (truthy (trim a) && truthy (trim t)); [|now split; eauto].
    cbn [fst]. split; [exact Hd|].
    cbn [saveEventsToLocalStorage set_events events]. eexists.
    apply (find_event_update _ _ _ E); [exact Hfind|reflexivity].
  - unfold createEventSubmit.
    destruct (formIsValid (fields form)); [|now split; eauto].
    cbn [fst]. split; [exact Hd|].
    cbn [saveEventsToLocalStorage set_events events]. exists E.
    now apply find_event_append.
Qed.

Lemma run_bound_to (Date_value : jsstring -> option Z) (ops : list Operation)
    (eventId : jsstring) (i : nat) (st : State) :
  Forall (fun op => opens_detail op = false) ops ->
  bound_to eventId i st -> bound_to eventId i (run Date_value ops st).
Proof.
  intros Hops. revert st. induction Hops as [|op ops Hop Hops IH]; intros st Hst;
    [exact Hst|].
  cbn [run]. apply IH. now apply step_bound_to.
Qed.

Lemma loadEventDetail_bound_to (Date_value : jsstring -> option Z)
    (eventId : jsstring) (i : nat) (E : Event.t) (st : State) :
  find_event eventId (events st) = Some (i, E) ->
  bound_to eventId i (fst (loadEventDetail Date_value eventId st))
  /\ events (fst (loadEventDetail Date_value eventId st)) = events st.
Proof.
  intros Hfind. unfold loadEventDetail. rewrite Hfind. cbn [fst].
  split; [|reflexivity]. split; [reflexivity|]. cbn [set_detail events]. eauto.
Qed.

(** X8. A comment reaches the event whose detail view is open, whatever
    happened in between. After the detail view of an event was opened
    and any votes, comment submissions and event creations followed, a
    comment with non-empty trimmed author and text is accepted and
    appended to that event, which still sits at its place with its id and
    still is the event [find] finds for the id. *)
Theorem X8_comment_reaches_open_event (Date_value : jsstring -> option Z)
    (st : State) (eventId : jsstring) (i : nat) (E : Event.t)
    (ops : list Operation) (authorValue textValue isoNow : jsstring) :
  find_event eventId (events st) = Some (i, E) ->
  Forall (fun op => opens_detail op = false) ops ->
  trim authorValue <> [] -> trim textValue <> [] ->
  exists E2,
    find_event eventId
      (events (run Date_value ops (fst (loadEventDetail Date_value eventId st))))
    = Some (i, E2)
    /\ Event.id E2 = Event.id E
    /\ exists st3,
         commentSubmit Date_value authorValue textValue isoNow
           (run Date_value ops (fst (loadEventDetail Date_value eventId st)))
         = (st3, CommentAdded (js "Comentario añadido exitosamente!")
                   (renderComments Date_value
                      (Event.comments E2
                       ++ [Comment.mk (trim authorValue) (trim textValue) isoNow])))
         /\ events st3
            = <[i := Event.push_comment
                       (Comment.mk (trim authorValue) (trim textValue) isoNow) E2]>
                (events (run Date_value ops
                           (fst (loadEventDetail Date_value eventId st)))).
Proof.
  intros Hfind Hops Ha Ht.
  destruct (loadEventDetail_bound_to Date_value eventId i E st Hfind) as [Hb Hevs].
  pose proof (run_bound_to Date_value ops eventId i _ Hops Hb) as [Hd (E2 & Hfind2)].
  exists E2. split; [exact Hfind2|].
  pose proof Hfind as (Hi & Hid & _)%find_event_first.
  pose proof Hfind2 as (Hi2 & Hid2 & _)%find_event_first.
  split; [congruence|].
  unfold commentSubmit. rewrite Hd, Hi2.
  rewrite (proj2 (truthy_nonempty _) Ha), (proj2 (truthy_nonempty _) Ht).
  cbn [andb]. eexists. split; reflexivity.
Qed.


(** ** Generated ids *)

Lemma parse_number_toString_before (n : Z) (rest : jsstring) :
  match rest with [] => True | c :: _ => digit_of c = None end ->
  ends_number rest = true ->
  parse_number (Number_toString n ++ rest) = Some (n, rest).
Proof.
  intros Hd He. unfold Number_toString.
  destruct (n <? 0)%Z eqn:Hn.
  - simpl. rewrite parse_nat_units by assumption.
    f_equal. f_equal. apply Z.ltb_lt in Hn. lia.
  - apply Z.ltb_ge in Hn.
    destruct (uint_units_head (N.to_uint (Z.to_N n)) (to_uint_nonnil _))
      as (c & t & Hc & Hrange).
    pose proof (parse_nat_units (Z.to_N n) rest Hd He) as Hp.
    rewrite Hc in *. simpl app in *. unfold parse_number.
    destruct (c =? 45) eqn:Hc45; [apply N.eqb_eq in Hc45; lia|].
    rewrite Hp. f_equal. f_equal. lia.
Qed.

Lemma generated_id_inj (n n' : Z) (f f' : jsstring) :
  generated_id n f = generated_id n' f' -> n = n' /\ f = f'.
Proof.
  unfold generated_id. intros H%app_inv_head.
  apply (f_equal parse_number) in H.
  rewrite !parse_number_toString_before in H by reflexivity.
  injection H as -> ->. now split.
Qed.

Lemma newEvent_id (form : CreateEventForm) (now : Z) (fragment : jsstring) :
  Event.id (newEvent form now fragment) = generated_id now fragment.
Proof. reflexivity. Qed.

(** X10. Two event creations give the same id only if they read the same
    clock value and the same random fragment. *)
Theorem X10_generated_ids_differ (form form' : CreateEventForm) (now now' : Z)
    (fragment fragment' : jsstring) :
  (now, fragment) <> (now', fragment') ->
  Event.id (newEvent form now fragment) <> Event.id (newEvent form' now' fragment').
Proof.
  intros Hne Heq. rewrite !newEvent_id in Heq.
  apply generated_id_inj in Heq as [-> ->]. now apply Hne.
Qed.

Lemma step_ids (Date_value : jsstring -> option Z) (op : Operation) (st : State) :
  Event.id <$> events (fst (step Date_value op st)) = Event.id <$> events st
  \/ exists form now fragment,
       op = SubmitEvent form now fragment
       /\ formIsValid (fields form) = true
       /\ events (fst (step Date_value op st))
          = events st ++ [newEvent form now fragment].
Proof.
  destruct op as [counters x | x | a t d | form now fragment]; cbn [step].
  - left. destruct (find_event x (events st)) as [[j Ej]|] eqn:Hx.
    + rewrite (handleVote_events counters st x j Ej Hx).
      apply find_event_first in Hx as (Hj & _). now apply (ids_update _ _ Ej).
    + unfold handleVote. now rewrite Hx.
  - left. unfold loadEventDetail.
    destruct (find_event x (events st)) as [[j Ej]|]; reflexivity.
  - left. unfold commentSubmit.
    destruct (detail st) as [i|]; [|reflexivity].
    destruct (events st !! i) as [E|] eqn:Hi; [|reflexivity].
    destruct (truthy (trim a) && truthy (trim t)); [|reflexivity].
    cbn [fst saveEventsToLocalStorage set_events events].
    now apply (ids_update _ _ E).
  - unfold createEventSubmit.
    destruct (formIsValid (fields form)) eqn:Hvalid; [|now left].
    right. exists form, now, fragment. rewrite Hvalid. auto.
Qed.

Lemma created_cons (op : Operation) (ops : list Operation) :
  created (op :: ops) = created ops
  \/ exists form now fragment,
       op = SubmitEvent form now fragment
       /\ created (op :: ops) = (now, fragment) :: created ops.
Proof.
  destruct op as [| | |form now fragment]; cbn [created]; auto.
  destruct (formIsValid (fields form)); eauto 6.
Qed.

Lemma run_ids_distinct (Date_value : jsstring -> option Z) (ops : list Operation)
    (st : State) :
  NoDup (Event.id <$> events st) ->
  NoDup (created ops) ->
  (forall E p, E ∈ events st -> p ∈ created ops ->
     Event.id E <> generated_id (fst p) (snd p)) ->
  NoDup (Event.id <$> events (run Date_value ops st)).
Proof.
  revert st. induction ops as [|op ops IH]; intros st Hnd Hcr Hfresh; [exact Hnd|].
  cbn [run].
  assert (Hsub : forall p, p ∈ created ops -> p ∈ created (op :: ops)).
  { intros p Hp. destruct (created_cons op ops) as [->|(? & ? & ? & _ & ->)];
      [exact Hp|now right]. }
  assert (Hcr' : NoDup (created ops)).
  { destruct (created_cons op ops) as [Heq|(? & ? & ? & _ & Heq)]; rewrite Heq in Hcr;
      [exact Hcr|now apply NoDup_cons in Hcr]. }
  destruct (step_ids Date_value op st) as [Hids|(form & now & fragment & -> & Hvalid & Hevs)].
  - apply IH; [now rewrite Hids|exact Hcr'|].
    intros E p HE Hp.
    assert (Hin : Event.id E ∈ Event.id <$> events st).
    { rewrite <- Hids. now apply list_elem_of_fmap_2. }
    apply list_elem_of_fmap in Hin as (E0 & -> & HE0). now apply Hfresh; [|apply Hsub].
  - cbn [created] in Hcr, Hfresh. rewrite Hvalid in Hcr, Hfresh.
    apply NoDup_cons in Hcr as [Hnew _].
    apply IH; [rewrite Hevs|exact Hcr'|].
    + apply ids_append; [exact Hnd|]. intros E HE. rewrite newEvent_id.
      apply (Hfresh E (now, fragment) HE). left.
    + intros E p HE Hp. rewrite Hevs in HE.
      apply elem_of_app in HE as [HE|HE].
      * apply Hfresh; [exact HE|now right].
      * apply list_elem_of_singleton in HE as ->. rewrite newEvent_id.
        intros Heq. apply generated_id_inj in Heq as [Hn Hf].
        apply Hnew. destruct p as [n f]. cbn [fst snd] in *. now subst.
Qed.

(** X11. Ids stay unique as long as no two creations read the same clock
    value and fragment. If the ids of the collection are pairwise
    distinct, the accepted event submissions of a run read pairwise distinct pairs
    of clock value and fragment, and no event of the collection already
    carries an id these pairs generate, then the ids are pairwise
    distinct after the run. *)
Theorem X11_ids_stay_distinct (Date_value : jsstring -> option Z)
    (ops : list Operation) (st : State) :
  NoDup (Event.id <$> events st) ->
  NoDup (created ops) ->
  (forall E p, E ∈ events st -> p ∈ created ops ->
     Event.id E <> generated_id (fst p) (snd p)) ->
  NoDup (Event.id <$> events (run Date_value ops st)).
Proof. apply run_ids_distinct. Qed.

(** ** The listings *)

(** X12. The listing of the explore page. When every event carries a
    date the browser can read, the cards [loadEvents] appends are the
    events in the order of their dates, earliest first, events of the
    same instant in the order of the collection; without a count (or
    with the count 0) all events are listed, with a count the first that
    many of them; the collection is left as it is. *)
Theorem X12_chronological_listing (Date_value : jsstring -> option Z)
    (displayCount : option nat) (st : State) :
  Forall (fun E => is_Some (Date_value (Event.date E))) (events st) ->
  fst (loadEvents Date_value displayCount st) = st
  /\ ascending (fun E => getTime Date_value (Event.date E))
       (snd (loadEvents Date_value displayCount st))
  /\ Permutation (snd (loadEvents Date_value None st)) (events st)
  /\ (forall t,
        filter (fun E => getTime Date_value (Event.date E) = t)
          (snd (loadEvents Date_value None st))
        = filter (fun E => getTime Date_value (Event.date E) = t) (events st))
  /\ snd (loadEvents Date_value displayCount st)
     = match displayCount with
       | Some (S n) => take (S n) (snd (loadEvents Date_value None st))
       | _ => snd (loadEvents Date_value None st)
       end
  /\ length (snd (loadEvents Date_value displayCount st))
     = match displayCount with
       | Some (S n) => Nat.min (S n) (length (events st))
       | _ => length (events st)
       end.
Proof.
  intros Hvalid. cbn [loadEvents fst snd]. unfold eventsToDisplay.
  rewrite (date_asc_by_key _ _ Hvalid).
  set (key := fun E => (- getTime Date_value (Event.date E))%Z).
  assert (Hasc : ascending (fun E => getTime Date_value (Event.date E))
                   (js_sort (by_key_desc key) (events st))).
  { eapply StronglySorted_impl; [|apply (js_sort_descending key)].
    unfold key. cbn. intros a b. lia. }
  split; [reflexivity|].
  split; [destruct displayCount as [[|n]|]; try exact Hasc;
          now apply StronglySorted_take|].
  split; [apply js_sort_perm|].
  split.
  { intros t.
    transitivity (filter (fun E => key E = (- t)%Z) (js_sort (by_key_desc key) (events st))).
    - apply list_filter_iff. intros E. unfold key. lia.
    - rewrite js_sort_stable. apply list_filter_iff. intros E. unfold key. lia. }
  split; [reflexivity|].
  destruct displayCount as [[|n]|];
    rewrite ?length_take, (Permutation_length (js_sort_perm _ _)); reflexivity.
Qed.

(** X13. The order of the comments in the detail view. The list
    [renderComments] shows is always a rearrangement of the comments it
    is given; when every comment carries a date the browser can read, it
    is in the order of the dates, latest first, comments of the same
    instant in the order they were added. *)
Theorem X13_comment_listing (Date_value : jsstring -> option Z)
    (comments : list Comment.t) :
  Permutation (renderComments Date_value comments) comments
  /\ (Forall (fun c => is_Some (Date_value (Comment.date c))) comments ->
      descending (fun c => getTime Date_value (Comment.date c))
        (renderComments Date_value comments)
      /\ forall t,
           filter (fun c => getTime Date_value (Comment.date c) = t)
             (renderComments Date_value comments)
           = filter (fun c => getTime Date_value (Comment.date c) = t) comments).
Proof.
  unfold renderComments. split; [apply js_sort_perm|].
  intros Hvalid. rewrite (date_desc_by_key _ _ Hvalid).
  split; [apply js_sort_descending|intros t; apply js_sort_stable].
Qed.

(** X14. A vote re-ranks the voted event only. In the ranking of the
    collection as a vote leaves it, however the update of the counters
    ended, the events with other ids stand in the same order as in the
    ranking before the vote. *)
Theorem X14_vote_keeps_order_of_others (counters : Completion)
    (eventId : jsstring) (st : State) :
  filter (fun E => Event.id E <> eventId)
    (snd (loadRanking (fst (handleVote counters eventId st))))
  = filter (fun E => Event.id E <> eventId) (snd (loadRanking st)).
Proof.
  cbn [loadRanking snd]. unfold sortedEvents.
  change votes_desc with (by_key_desc Event.votes).
  rewrite !js_sort_filter. f_equal.
  destruct (find_event eventId (events st)) as [[i E]|] eqn:Hfind.
  - rewrite (handleVote_events counters _ _ _ _ Hfind).
    apply find_event_first in Hfind as (Hi & Hid & _).
    apply (filter_insert_out _ _ _ E); [exact Hi| |]; cbn; intros H; now apply H.
  - now rewrite (handleVote_none counters _ _ Hfind).
Qed.

(** ** White space and the entered data *)

Lemma trimStart_head (s : jsstring) :
  match trimStart s with
  | [] => True
  | c :: _ => is_white_space c = false
  end.
Proof.
  induction s as [|c s IH]; cbn [trimStart]; [exact I|].
  destruct (is_white_space c) eqn:Hc; [exact IH|exact Hc].
Qed.

Lemma trimStart_keeps (c : N) (s : jsstring) :
  is_white_space c = false -> trimStart (c :: s) = c :: s.
Proof. intros Hc. cbn [trimStart]. now rewrite Hc. Qed.

Lemma trimStart_idem (s : jsstring) : trimStart (trimStart s) = trimStart s.
Proof.
  pose proof (trimStart_head s) as Hh.
  destruct (trimStart s) as [|c r]; [reflexivity|now apply trimStart_keeps].
Qed.

Lemma trimStart_blank (s : jsstring) : trimStart s = [] <-> blank s.
Proof.
  unfold blank. induction s as [|c s IH]; cbn [trimStart].
  - split; [constructor|reflexivity].
  - destruct (is_white_space c) eqn:Hc.
    + rewrite IH. split; [now constructor|now inversion 1].
    + split; [discriminate|]. inversion 1; congruence.
Qed.

Lemma trimStart_snoc (l : jsstring) (c : N) :
  is_white_space c = false -> exists u, trimStart (l ++ [c]) = u ++ [c].
Proof.
  intros Hc. induction l as [|d l IH].
  - exists []. now apply trimStart_keeps.
  - cbn [app trimStart]. destruct (is_white_space d); [exact IH|].
    now exists (d :: l).
Qed.

Lemma blank_rev (s : jsstring) : blank (rev s) <-> blank s.
Proof.
  unfold blank. split; intros H; [|now apply Forall_rev].
  apply Forall_rev in H. now rewrite rev_involutive in H.
Qed.

(** [trim] empties exactly the strings of white space. *)
Lemma trim_blank (s : jsstring) : trim s = [] <-> blank s.
Proof.
  unfold trim, trimEnd. split.
  - intros H. apply (f_equal (@rev N)) in H. rewrite rev_involutive in H.
    cbn [rev] in H. apply (proj1 (trimStart_blank _)) in H.
    apply (proj1 (blank_rev _)) in H.
    apply trimStart_blank.
    pose proof (trimStart_head s) as Hh.
    destruct (trimStart s) as [|c r]; [reflexivity|].
    change (is_white_space c = false) in Hh. inversion H; congruence.
  - intros H%trimStart_blank. now rewrite H.
Qed.

(** What [trim] returns has no white space left to strip. *)
Lemma trim_idem (s : jsstring) : trim (trim s) = trim s.
Proof.
  unfold trim, trimEnd.
  pose proof (trimStart_head s) as Hh.
  destruct (trimStart s) as [|c t]; [reflexivity|].
  change (is_white_space c = false) in Hh.
  cbn [rev]. destruct (trimStart_snoc (rev t) c Hh) as [u Hu].
  pose proof (trimStart_idem (rev t ++ [c])) as Hidem.
  rewrite Hu in *. rewrite rev_app_distr. cbn [rev app].
  rewrite (trimStart_keeps _ _ Hh). cbn [rev]. rewrite rev_involutive.
  rewrite Hidem, rev_app_distr. reflexivity.
Qed.

Lemma trim_trimmed (s : jsstring) : trim s <> [] -> trimmed (trim s).
Proof. intros H. split; [exact H|apply trim_idem]. Qed.

(** ** The rules of [validateField] *)

Lemma validateField_rules (el : InputElement) (r : ValidationRules) :
  fst (validateField el r) = true
  <-> (required r = true -> trim (value el) <> [])
      /\ shorter_than (minLength r) (trim (value el)) = false
      /\ longer_than (maxLength r) (trim (value el)) = false
      /\ (type el = js "email" -> checkValidity el = true)
      /\ (type el = js "url" -> trim (value el) <> [] -> checkValidity el = true)
      /\ (tagName el = js "SELECT" -> trim (value el) <> [])
      /\ (type el = js "date" -> checkValidity el = true).
Proof.
  unfold validateField.
  destruct (required r);
    destruct (shorter_than (minLength r) (trim (value el)));
    destruct (longer_than (maxLength r) (trim (value el)));
    destruct (checkValidity el);
    repeat case_bool_decide; cbn [andb negb fst];
    (split;
     [try discriminate; intros _; repeat split; intros; congruence
     |intros (R1 & R2 & R3 & R4 & R5 & R6 & R7); try reflexivity;
      repeat match goal with
             | R : ?P -> _ |- _ =>
                 specialize (R ltac:(first [reflexivity|assumption]))
             end;
      congruence]).
Qed.

(** ** Entered data stays well-formed *)

Lemma well_formed_incr (E : Event.t) : well_formed E -> well_formed (Event.incr_votes E).
Proof.
  unfold well_formed, Event.incr_votes, Event.set_votes.
  cbn [Event.title Event.description Event.imageUrl Event.votes Event.category
       Event.date Event.comments].
  intros (? & ? & ? & ? & ? & ? & ? & Hvotes & ?).
  pose proof (Number_increment_le (Event.votes E)).
  repeat (split; [first [assumption|lia]|]). assumption.
Qed.

Lemma well_formed_push (c : Comment.t) (E : Event.t) :
  well_formed E -> entered c -> well_formed (Event.push_comment c E).
Proof.
  unfold well_formed, Event.push_comment.
  cbn [Event.title Event.description Event.imageUrl Event.votes Event.category
       Event.date Event.comments].
  intros (? & ? & ? & ? & ? & ? & ? & ? & ?) Hc.
  repeat (split; [assumption|]).
  apply Forall_app. split; [assumption|]. now constructor.
Qed.

Lemma required_entered (el : InputElement) (min max : option nat) :
  fst (validateField el (mkRules true min max)) = true ->
  trimmed (trim (value el))
  /\ shorter_than min (trim (value el)) = false
  /\ longer_than max (trim (value el)) = false.
Proof.
  intros (Hreq & Hmin & Hmax & _)%validateField_rules. cbn in Hreq, Hmin, Hmax.
  split; [apply trim_trimmed; now apply Hreq|now split].
Qed.

Lemma newEvent_well_formed (form : CreateEventForm) (now : Z) (fragment : jsstring) :
  formIsValid (fields form) = true -> well_formed (newEvent form now fragment).
Proof.
  unfold formIsValid, fields. cbn [forallb input rules].
  rewrite !andb_true_iff.
  intros (Ht & Hd & Hdate & _ & Hc & _).
  apply required_entered in Ht as (Ht & Hmin & Hmax).
  apply required_entered in Hd as (Hd & Hmind & _).
  apply required_entered in Hdate as (Hdate & _ & _).
  apply required_entered in Hc as (Hc & _ & _).
  cbn [shorter_than longer_than] in Hmin, Hmax, Hmind.
  apply Nat.ltb_ge in Hmin, Hmax, Hmind.
  unfold well_formed, newEvent, eventData. cbn.
  repeat (split; [first [assumption|lia]|]).
  split; [|split; [reflexivity|constructor]].
  destruct (truthy (trim (value (event_image form)))) eqn:Himg.
  - now apply truthy_nonempty.
  - intros H. apply (f_equal (@length N)) in H. vm_compute in H. discriminate H.
Qed.

Lemma step_well_formed (Date_value : jsstring -> option Z) (op : Operation) (st : State) :
  Forall well_formed (events st) ->
  Forall well_formed (events (fst (step Date_value op st))).
Proof.
  intros Hst.
  destruct op as [counters x | x | a t d | form now fragment]; cbn [step].
  - destruct (find_event x (events st)) as [[i E]|] eqn:Hx;
      [|unfold handleVote; now rewrite Hx].
    rewrite (handleVote_events counters st x i E Hx).
    apply find_event_first in Hx as (Hi & _).
    apply Forall_insert; [exact Hst|].
    apply well_formed_incr. exact (proj1 (Forall_lookup _ _) Hst i E Hi).
  - unfold loadEventDetail.
    destruct (find_event x (events st)) as [[i E]|]; exact Hst.
  - unfold commentSubmit.
    destruct (detail st) as [i|]; [|exact Hst].
    destruct (events st !! i) as [E|] eqn:Hi; [|exact Hst].
    destruct (truthy (trim a) && truthy (trim t)) eqn:Hfilled; [|exact Hst].
    cbn [fst saveEventsToLocalStorage set_events events].
    apply andb_true_iff in Hfilled as [Ha Ht].
    apply Forall_insert; [exact Hst|].
    apply well_formed_push; [exact (proj1 (Forall_lookup _ _) Hst i E Hi)|].
    split; cbn; apply trim_trimmed; now apply truthy_nonempty.
  - unfold createEventSubmit.
    destruct (formIsValid (fields form)) eqn:Hvalid; [|exact Hst].
    cbn [fst saveEventsToLocalStorage set_events events].
    apply Forall_app. split; [exact Hst|].
    constructor; [|constructor]. now apply newEvent_well_formed.
Qed.

Lemma run_well_formed (Date_value : jsstring -> option Z) (ops : list Operation)
    (st : State) :
  Forall well_formed (events st) ->
  Forall well_formed (events (run Date_value ops st)).
Proof.
  revert st. induction ops as [|op ops IH]; intros st Hst; [exact Hst|].
  cbn [run]. apply IH, step_well_formed, Hst.
Qed.

(** X15. What the handlers let into the collection is well-formed, and
    stays so. If every event of the collection has a title of 5 to 100
    code units, a description of at least 20, a date, a category and an
    image path, each non-empty and without white space at either end,
    votes that are not negative, and comments whose author and text are
    non-empty and without white space at either end, then so has every
    event after any run of operations. *)
Theorem X15_entered_data_well_formed (Date_value : jsstring -> option Z)
    (ops : list Operation) (st : State) :
  Forall well_formed (events st) ->
  Forall well_formed (events (run Date_value ops st)).
Proof. apply run_well_formed. Qed.

(** X16. A comment is refused exactly when its author or its text is
    blank. With the detail view of an event open, a submission whose
    author or text consists of white space only (or is empty) shows the
    validation message and changes nothing; any other submission appends
    to the event a comment whose author and text are the entered ones
    without the white space around them, and whose date is the reading of
    the clock. *)
Theorem X16_blank_comment_refused (Date_value : jsstring -> option Z)
    (authorValue textValue isoNow : jsstring) (st : State) (i : nat) (E : Event.t) :
  detail st = Some i ->
  events st !! i = Some E ->
  (blank authorValue \/ blank textValue ->
   commentSubmit Date_value authorValue textValue isoNow st
   = (st, CommentRejected (js "Por favor, completa tu nombre y comentario.")))
  /\ (~ blank authorValue -> ~ blank textValue ->
      exists c,
        events (fst (commentSubmit Date_value authorValue textValue isoNow st))
        = <[i := Event.push_comment c E]> (events st)
        /\ entered c
        /\ Comment.author c = trim authorValue
        /\ Comment.text c = trim textValue
        /\ Comment.date c = isoNow).
Proof.
  intros Hd Hi. unfold commentSubmit. rewrite Hd, Hi. split.
  - intros Hblank.
    replace (truthy (trim authorValue) && truthy (trim textValue)) with false;
      [reflexivity|].
    symmetry. apply andb_false_iff.
    destruct Hblank as [H%trim_blank|H%trim_blank]; rewrite H; auto.
  - intros Ha Ht. rewrite <- trim_blank in Ha, Ht.
    rewrite (proj2 (truthy_nonempty _) Ha), (proj2 (truthy_nonempty _) Ht).
    cbn [andb fst saveEventsToLocalStorage set_events events].
    eexists. split; [reflexivity|].
    split; [split; cbn; now apply trim_trimmed|]. now cbn.
Qed.

Lemma validateField_message (el : InputElement) (r : ValidationRules) :
  fst (validateField el r) = true <-> snd (validateField el r) = [].
Proof.
  unfold validateField.
  repeat match goal with
         | |- context [if ?b then _ else _] => destruct b
         end; cbn [fst snd];
    (split; [try discriminate; reflexivity|]); try reflexivity;
    intros H; try (apply app_eq_nil in H as [H _]);
    apply (f_equal (@length N)) in H; vm_compute in H; discriminate H.
Qed.

(** X17. The rules of [validateField] and its message. A field is valid
    exactly when it passes every rule: a required field is not blank, the
    trimmed value is within the given lengths, an email or date control
    passes the check of the browser, a url control is blank or passes it,
    a select control is not blank. And a field is valid exactly when no
    message is left in its error element. *)
Theorem X17_validation_rules (el : InputElement) (r : ValidationRules) :
  (fst (validateField el r) = true
   <-> (required r = true -> trim (value el) <> [])
       /\ shorter_than (minLength r) (trim (value el)) = false
       /\ longer_than (maxLength r) (trim (value el)) = false
       /\ (type el = js "email" -> checkValidity el = true)
       /\ (type el = js "url" -> trim (value el) <> [] -> checkValidity el = true)
       /\ (tagName el = js "SELECT" -> trim (value el) <> [])
       /\ (type el = js "date" -> checkValidity el = true))
  /\ (fst (validateField el r) = true <-> snd (validateField el r) = []).
Proof. split; [apply validateField_rules|apply validateField_message]. Qed.

(** X18. The image field is optional. A url control that is validated
    with no rules, as the image field is, passes exactly when it is blank
    or the browser accepts its value as a URL. *)
Theorem X18_optional_image_url (el : InputElement) :
  type el = js "url" ->
  tagName el <> js "SELECT" ->
  fst (validateField el (mkRules false None None)) = true
  <-> blank (value el) \/ checkValidity el = true.
Proof.
  intros Htype Htag. rewrite validateField_rules, <- trim_blank.
  cbn [required minLength maxLength shorter_than longer_than].
  assert (Hemail : js "url" <> js "email").
  { intros H. apply (f_equal (@length N)) in H. vm_compute in H. discriminate H. }
  assert (Hdate : js "url" <> js "date").
  { intros H. apply (f_equal (@length N)) in H. vm_compute in H. discriminate H. }
  rewrite Htype. split.
  - intros (_ & _ & _ & _ & Hurl & _).
    destruct (decide (trim (value el) = [])) as [He|He]; [now left|right].
    now apply Hurl.
  - intros Hok.
    split; [discriminate|]. split; [reflexivity|]. split; [reflexivity|].
    split; [intros H; now destruct Hemail|].
    split; [intros _ Hne; destruct Hok as [He|Hc]; [contradiction|exact Hc]|].
    split; [intros H; now destruct Htag|intros H; now destruct Hdate].
Qed.

(** ** The mirror after an operation *)

(** X19. An operation that runs to its end and changes the collection
    leaves the mirror equal to it: whatever the page state before, also
    one whose mirror had fallen behind, when a vote, a comment submission
    or an event submission that does not end in a throw has changed the
    array [events], the text under the key ['events'] is the JSON text of
    the new array, and parsing it gives the array back. *)
Theorem X19_completed_operation_mirrored (Date_value : jsstring -> option Z)
    (op : Operation) (st : State) :
  interrupted (snd (step Date_value op st)) = false ->
  events (fst (step Date_value op st)) <> events st ->
  localStorage (fst (step Date_value op st)) !! "events"%string
    = Some (JSON_stringify (events (fst (step Date_value op st))))
  /\ persisted (fst (step Date_value op st))
    = Some (events (fst (step Date_value op st))).
Proof.
  intros Hend Hchanged.
  assert (Hm : mirrored (fst (step Date_value op st))).
  { destruct op as [counters eventId | eventId | a t d | form now fragment];
      cbn [step] in *.
    - unfold handleVote in *.
      destruct (find_event eventId (events st)) as [[i E]|]; [|now elim Hchanged].
      destruct counters; [apply saved_mirrored|discriminate Hend].
    - unfold loadEventDetail in *.
      destruct (find_event eventId (events st)) as [[i E]|]; now elim Hchanged.
    - unfold commentSubmit in *.
      destruct (detail st) as [i|]; [|now elim Hchanged].
      destruct (events st !! i) as [E|]; [|now elim Hchanged].
      destruct (truthy (trim a) && truthy (trim t));
        [apply saved_mirrored|now elim Hchanged].
    - unfold createEventSubmit in *.
      destruct (formIsValid (fields form));
        [apply saved_mirrored|now elim Hchanged]. }
  split; [exact Hm|now apply mirrored_persisted].
Qed.

(** * Further instances *)



Lemma X2_only_events_key_written_witness :
  "darkMode"%string <> "events"%string
  /\ localStorage (run iso_time afternoon (snd (darkModeToggle false first_visit)))
       !! "darkMode"%string
     = localStorage (snd (darkModeToggle false first_visit)) !! "darkMode"%string.
Proof.
  assert (H : "darkMode"%string <> "events"%string) by discriminate.
  split; [exact H|].
  exact (X2_only_events_key_written iso_time afternoon
           (snd (darkModeToggle false first_visit)) "darkMode" H).
Defined.

Lemma X4_append_only_witness :
  events first_visit !! 0%nat = Some seed_1
  /\ exists E', events (run iso_time afternoon first_visit) !! 0%nat = Some E'
       /\ Event.id E' = Event.id seed_1
       /\ (Event.votes seed_1 <= Event.votes E')%Z
       /\ exists added, Event.comments E' = Event.comments seed_1 ++ added.
Proof.
  assert (H : events first_visit !! 0%nat = Some seed_1) by reflexivity.
  split; [exact H|].
  destruct (X4_append_only iso_time afternoon first_visit 0 seed_1 H)
    as (E' & Hi & Hid & _ & _ & _ & _ & _ & Hv & Hc).
  exists E'. auto.
Defined.

Lemma X6_votes_go_to_first_match_witness :
  find_event (js "1") (events twins) = Some (1%nat, seed_1)
  /\ events (fst (vote_times [Normal; Throw; Normal] (js "1") twins))
     = [seed_2; Event.set_votes 123 seed_1; Event.set_votes 7 seed_1].
Proof.
  assert (H : find_event (js "1") (events twins) = Some (1%nat, seed_1))
    by (vm_compute; reflexivity).
  split; [exact H|].
  rewrite (proj1 (X6_votes_go_to_first_match [Normal; Throw; Normal] twins
                    (js "1") 1 seed_1 H)).
  reflexivity.
Defined.

Lemma seed_1_found :
  find_event (js "1") (events first_visit) = Some (0%nat, seed_1).
Proof. vm_compute. reflexivity. Qed.

Lemma on_the_detail_page_stays :
  Forall (fun op => opens_detail op = false) on_the_detail_page.
Proof. repeat constructor. Qed.

Lemma X8_comment_reaches_open_event_witness :
  find_event (js "1") (events first_visit) = Some (0%nat, seed_1)
  /\ Forall (fun op => opens_detail op = false) on_the_detail_page
  /\ trim (js " Ann ") <> [] /\ trim (js "Hi") <> []
  /\ exists E2 st3,
       find_event (js "1")
         (events (run iso_time on_the_detail_page
                    (fst (loadEventDetail iso_time (js "1") first_visit))))
       = Some (0%nat, E2)
       /\ events st3
          = <[0%nat := Event.push_comment
                         (Comment.mk (trim (js " Ann ")) (trim (js "Hi")) noon) E2]>
              (events (run iso_time on_the_detail_page
                         (fst (loadEventDetail iso_time (js "1") first_visit)))).
Proof.
  assert (Ha : trim (js " Ann ") <> [])
    by (apply (proj1 (bool_decide_eq_false _)); vm_compute; reflexivity).
  assert (Ht : trim (js "Hi") <> [])
    by (apply (proj1 (bool_decide_eq_false _)); vm_compute; reflexivity).
  split; [exact seed_1_found|]. split; [exact on_the_detail_page_stays|].
  split; [exact Ha|]. split; [exact Ht|].
  destruct (X8_comment_reaches_open_event iso_time first_visit (js "1") 0 seed_1
              on_the_detail_page (js " Ann ") (js "Hi") noon
              seed_1_found on_the_detail_page_stays Ha Ht)
    as (E2 & Hfind & _ & st3 & _ & Hevs).
  exists E2, st3. split; [exact Hfind|exact Hevs].
Defined.


Lemma X10_generated_ids_differ_witness :
  (1748779200000%Z, js "k3j2h1a") <> (1748779200000%Z, js "k3j2h1b")
  /\ Event.id (newEvent complete_form 1748779200000 (js "k3j2h1a"))
     <> Event.id (newEvent incomplete_form 1748779200000 (js "k3j2h1b")).
Proof.
  assert (H : (1748779200000%Z, js "k3j2h1a") <> (1748779200000%Z, js "k3j2h1b"))
    by (apply (proj1 (bool_decide_eq_false _)); vm_compute; reflexivity).
  split; [exact H|].
  exact (X10_generated_ids_differ complete_form incomplete_form _ _ _ _ H).
Defined.

Lemma js_event_prefix : js "event-" = [101; 118; 101; 110; 116; 45].
Proof. vm_compute. reflexivity. Qed.

Lemma seed_ids_not_generated (E : Event.t) (p : Z * jsstring) :
  E ∈ events first_visit -> Event.id E <> generated_id (fst p) (snd p).
Proof.
  intros HE Heq.
  assert (Hseed : Forall (fun E => head (Event.id E) <> Some 101) (events first_visit)).
  { refine (bool_decide_unpack _ _). vm_compute. exact I. }
  rewrite Forall_forall in Hseed. apply (Hseed E HE).
  rewrite Heq. unfold generated_id. rewrite js_event_prefix. reflexivity.
Qed.

Lemma X11_ids_stay_distinct_witness :
  NoDup (Event.id <$> events first_visit)
  /\ NoDup (created afternoon)
  /\ (forall E p, E ∈ events first_visit -> p ∈ created afternoon ->
        Event.id E <> generated_id (fst p) (snd p))
  /\ NoDup (Event.id <$> events (run iso_time afternoon first_visit)).
Proof.
  assert (Hnd : NoDup (Event.id <$> events first_visit)).
  { refine (bool_decide_unpack _ _). vm_compute. exact I. }
  assert (Hcr : NoDup (created afternoon)).
  { refine (bool_decide_unpack _ _). vm_compute. exact I. }
  assert (Hfresh : forall E p, E ∈ events first_visit -> p ∈ created afternoon ->
            Event.id E <> generated_id (fst p) (snd p)).
  { intros E p HE _. now apply seed_ids_not_generated. }
  split; [exact Hnd|]. split; [exact Hcr|]. split; [exact Hfresh|].
  exact (X11_ids_stay_distinct iso_time afternoon first_visit Hnd Hcr Hfresh).
Defined.

Lemma seed_dates_read :
  Forall (fun E => is_Some (date_or_time (Event.date E))) (events first_visit).
Proof. refine (bool_decide_unpack _ _). vm_compute. exact I. Qed.

Lemma X12_chronological_listing_witness :
  Forall (fun E => is_Some (date_or_time (Event.date E))) (events first_visit)
  /\ Event.id <$> snd (loadEvents date_or_time (Some 3%nat) first_visit)
     = [js "1"; js "5"; js "2"]
  /\ ascending (fun E => getTime date_or_time (Event.date E))
       (snd (loadEvents date_or_time (Some 3%nat) first_visit))
  /\ length (snd (loadEvents date_or_time (Some 3%nat) first_visit)) = 3%nat.
Proof.
  split; [exact seed_dates_read|].
  split; [vm_compute; reflexivity|].
  destruct (X12_chronological_listing date_or_time (Some 3%nat) first_visit
              seed_dates_read) as (_ & Hasc & _ & _ & _ & Hlen).
  split; [exact Hasc|exact Hlen].
Defined.

Lemma seed_1_comment_dates_read :
  Forall (fun c => is_Some (iso_time (Comment.date c))) (Event.comments seed_1).
Proof. refine (bool_decide_unpack _ _). vm_compute. exact I. Qed.

Lemma X13_comment_listing_witness :
  Forall (fun c => is_Some (iso_time (Comment.date c))) (Event.comments seed_1)
  /\ Permutation (renderComments iso_time (Event.comments seed_1))
       (Event.comments seed_1)
  /\ descending (fun c => getTime iso_time (Comment.date c))
       (renderComments iso_time (Event.comments seed_1)).
Proof.
  split; [exact seed_1_comment_dates_read|].
  destruct (X13_comment_listing iso_time (Event.comments seed_1)) as [Hperm Hsorted].
  split; [exact Hperm|]. exact (proj1 (Hsorted seed_1_comment_dates_read)).
Defined.

Lemma seed_events_well_formed : Forall well_formed (events first_visit).
Proof. refine (bool_decide_unpack _ _). vm_compute. exact I. Qed.

Lemma X15_entered_data_well_formed_witness :
  Forall well_formed (events first_visit)
  /\ Forall well_formed (events (run iso_time afternoon first_visit)).
Proof.
  split; [exact seed_events_well_formed|].
  exact (X15_entered_data_well_formed iso_time afternoon first_visit
           seed_events_well_formed).
Defined.

Lemma X16_blank_comment_refused_witness :
  detail viewing_first = Some 0%nat
  /\ events viewing_first !! 0%nat = Some seed_1
  /\ blank (js "   ")
  /\ commentSubmit iso_time (js "   ") (js "Hi") noon viewing_first
     = (viewing_first,
        CommentRejected (js "Por favor, completa tu nombre y comentario.")).
Proof.
  assert (Hd : detail viewing_first = Some 0%nat) by reflexivity.
  assert (Hi : events viewing_first !! 0%nat = Some seed_1) by reflexivity.
  assert (Hb : blank (js "   ")).
  { refine (bool_decide_unpack _ _). vm_compute. exact I. }
  split; [exact Hd|]. split; [exact Hi|]. split; [exact Hb|].
  exact (proj1 (X16_blank_comment_refused iso_time (js "   ") (js "Hi") noon
                  viewing_first 0 seed_1 Hd Hi) (or_introl Hb)).
Defined.

Lemma X18_optional_image_url_witness :
  type (url_control (js "  ") false) = js "url"
  /\ tagName (url_control (js "  ") false) <> js "SELECT"
  /\ fst (validateField (url_control (js "  ") false) (mkRules false None None))
     = true.
Proof.
  assert (Ht : type (url_control (js "  ") false) = js "url") by reflexivity.
  assert (Hg : tagName (url_control (js "  ") false) <> js "SELECT")
    by (apply (proj1 (bool_decide_eq_false _)); vm_compute; reflexivity).
  assert (Hb : blank (value (url_control (js "  ") false))).
  { refine (bool_decide_unpack _ _). vm_compute. exact I. }
  split; [exact Ht|]. split; [exact Hg|].
  exact (proj2 (X18_optional_image_url (url_control (js "  ") false) Ht Hg)
           (or_introl Hb)).
Defined.

(** A page whose mirror is behind after an interrupted vote: the next
    vote that runs to its end brings the mirror up to date. *)
Lemma X19_completed_operation_mirrored_witness :
  persisted (fst (step iso_time (Vote Throw (js "3")) first_visit))
  <> Some (events (fst (step iso_time (Vote Throw (js "3")) first_visit)))
  /\ interrupted
       (snd (step iso_time (Vote Normal (js "1"))
               (fst (step iso_time (Vote Throw (js "3")) first_visit)))) = false
  /\ events (fst (step iso_time (Vote Normal (js "1"))
                    (fst (step iso_time (Vote Throw (js "3")) first_visit))))
     <> events (fst (step iso_time (Vote Throw (js "3")) first_visit))
  /\ persisted (fst (step iso_time (Vote Normal (js "1"))
                       (fst (step iso_time (Vote Throw (js "3")) first_visit))))
     = Some (events (fst (step iso_time (Vote Normal (js "1"))
                            (fst (step iso_time (Vote Throw (js "3")) first_visit))))).
Proof.
  assert (Hstale : persisted (fst (step iso_time (Vote Throw (js "3")) first_visit))
                   <> Some (events (fst (step iso_time (Vote Throw (js "3"))
                                           first_visit)))).
  { apply (proj1 (bool_decide_eq_false _)). vm_compute. reflexivity. }
  assert (Hend : interrupted
                   (snd (step iso_time (Vote Normal (js "1"))
                           (fst (step iso_time (Vote Throw (js "3")) first_visit))))
                 = false) by (vm_compute; reflexivity).
  assert (H : events (fst (step iso_time (Vote Normal (js "1"))
                             (fst (step iso_time (Vote Throw (js "3")) first_visit))))
              <> events (fst (step iso_time (Vote Throw (js "3")) first_visit))).
  { apply (proj1 (bool_decide_eq_false _)). vm_compute. reflexivity. }
  split; [exact Hstale|]. split; [exact Hend|]. split; [exact H|].
  exact (proj2 (X19_completed_operation_mirrored iso_time (Vote Normal (js "1"))
                  (fst (step iso_time (Vote Throw (js "3")) first_visit)) Hend H)).
Defined.
